(** * audio-perturbator: the mixing engine and the transformers around it

    A shallow embedding of [audioperturbator/utils/ops.py] and of the
    transformer classes of [audioperturbator/transform.py].

    Samples are numpy float64 values.  They are modelled by [f64]: a real
    number, or one of the IEEE special values [+inf], [-inf], [nan].
    A finite result of an operation is the exact real result as long as it
    lies in the range of float64; beyond [max_float] it becomes an
    infinity, below half the smallest positive number it becomes zero
    ([rnd]).  Rounding within the range is not modelled, and there is a
    single unsigned zero.  The special values follow the IEEE tables
    numpy uses, with its default error state (division by zero, overflow
    and invalid operations warn and return [inf] / [nan], they do not
    raise); Python's own float power raises [OverflowError].

    Python exceptions are values of [exn]; a call returns a [result].
    The process-wide random source is an explicit argument.  numpy and
    librosa are modelled as far as the source calls them, librosa as of
    its 0.7 series (the one that still has [librosa.output.write_wav],
    which the package calls). *)

From Stdlib Require Import String Reals Lra Lia List Bool Arith ZArith.
Import ListNotations.
Open Scope R_scope.

(** ** Exceptions and results *)

Inductive exn : Type :=
| AssertionError
| NameError (name : string)
| NotImplementedError
| ValueError (msg : string)
| RuntimeError (msg : string)
| OverflowError (msg : string)
| ParameterError (msg : string)        (* librosa.util.exceptions.ParameterError *)
| OSError (msg : string)
| FileNotFoundError (msg : string)     (* a subclass of OSError *)
| CalledProcessError (returncode : Z). (* subprocess.CalledProcessError *)

Inductive result (A : Type) : Type :=
| Ok (a : A)
| Raise (e : exn).
Arguments Ok {A} a.
Arguments Raise {A} e.

Definition bind {A B : Type} (m : result A) (k : A -> result B) : result B :=
  match m with
  | Ok a => k a
  | Raise e => Raise e
  end.

Notation "x <- m ;; k" := (bind m (fun x => k))
  (at level 61, m at next level, right associativity).

(** ** Floating-point samples *)

Inductive f64 : Type :=
| Fin (r : R)
| PInf
| NInf
| NaN.

Definition signal : Type := list f64.

Definition isfinite (a : f64) : bool :=
  match a with Fin _ => true | _ => false end.

(** The infinity carrying the sign of [r]; [nan] when [r] is zero
    (this is [r * inf], and [r / 0]). *)
Definition signed_inf (r : R) : f64 :=
  if Rlt_dec 0 r then PInf else if Rlt_dec r 0 then NInf else NaN.

(** The largest finite number and the smallest positive (subnormal)
    number of float64. *)
Definition max_float : R := (2 - / 2 ^ 52) * 2 ^ 1023.

Definition min_float : R := / 2 ^ 1074.

(** A real result too small for float64 becomes zero. *)
Definition flush (r : R) : R :=
  if Rlt_dec (Rabs r) (min_float / 2) then 0 else r.

(** The float64 value of a real result: an infinity beyond the range,
    zero below it, the result itself in between. *)
Definition rnd (r : R) : f64 :=
  if Rlt_dec max_float (Rabs r) then signed_inf r else Fin (flush r).

Definition fneg (a : f64) : f64 :=
  match a with
  | Fin r => Fin (- r)
  | PInf => NInf
  | NInf => PInf
  | NaN => NaN
  end.

Definition fabs (a : f64) : f64 :=
  match a with
  | Fin r => Fin (Rabs r)
  | PInf | NInf => PInf
  | NaN => NaN
  end.

Definition fadd (a b : f64) : f64 :=
  match a, b with
  | Fin x, Fin y => rnd (x + y)
  | NaN, _ | _, NaN => NaN
  | PInf, NInf | NInf, PInf => NaN
  | PInf, _ | _, PInf => PInf
  | NInf, _ | _, NInf => NInf
  end.

Definition fmul (a b : f64) : f64 :=
  match a, b with
  | Fin x, Fin y => rnd (x * y)
  | NaN, _ | _, NaN => NaN
  | Fin x, PInf | PInf, Fin x => signed_inf x
  | Fin x, NInf | NInf, Fin x => fneg (signed_inf x)
  | PInf, PInf | NInf, NInf => PInf
  | PInf, NInf | NInf, PInf => NInf
  end.

Definition fdiv (a b : f64) : f64 :=
  match a, b with
  | Fin x, Fin y => if Req_dec_T y 0 then signed_inf x else rnd (x / y)
  | NaN, _ | _, NaN => NaN
  | Fin _, PInf | Fin _, NInf => Fin 0
  | PInf, Fin y => if Rlt_dec y 0 then NInf else PInf
  | NInf, Fin y => if Rlt_dec y 0 then PInf else NInf
  | _, _ => NaN
  end.

Definition fsqrt (a : f64) : f64 :=
  match a with
  | Fin r => if Rlt_dec r 0 then NaN else Fin (sqrt r)
  | PInf => PInf
  | NInf | NaN => NaN
  end.

(** [a < b]; every comparison with [nan] is false. *)
Definition flt (a b : f64) : bool :=
  match a, b with
  | Fin x, Fin y => if Rlt_dec x y then true else false
  | NInf, Fin _ | NInf, PInf | Fin _, PInf => true
  | _, _ => false
  end.

(** [np.maximum]: propagates [nan]. *)
Definition fmax (a b : f64) : f64 :=
  match a, b with
  | Fin x, Fin y => Fin (Rmax x y)
  | NaN, _ | _, NaN => NaN
  | PInf, _ | _, PInf => PInf
  | NInf, c | c, NInf => c
  end.

(** ** The numpy and librosa primitives the source calls *)

Module np.

(** [np.max(a)] of a one-dimensional array. *)
Definition max (a : signal) : result f64 :=
  match a with
  | [] => Raise (ValueError
      "zero-size array to reduction operation maximum which has no identity")
  | v :: a' => Ok (fold_left fmax a' v)
  end.

(** [np.sum(a)]. *)
Definition sum (a : signal) : f64 := fold_right fadd (Fin 0) a.

(** [np.linalg.norm(a)] of a one-dimensional array: [sqrt(dot(a, a))]. *)
Definition linalg_norm (a : signal) : f64 :=
  fsqrt (sum (map (fun v => fmul v v) a)).

(** [np.sqrt(n)] of a Python int. *)
Definition sqrt_int (n : nat) : f64 := fsqrt (Fin (INR n)).

(** [a * k], an array times a scalar. *)
Definition mul_scalar (a : signal) (k : f64) : signal :=
  map (fun v => fmul v k) a.

(** [a / k], an array divided by a scalar. *)
Definition div_scalar (a : signal) (k : f64) : signal :=
  map (fun v => fdiv v k) a.

Fixpoint zip_add (a b : signal) : signal :=
  match a, b with
  | u :: a', v :: b' => fadd u v :: zip_add a' b'
  | _, _ => []
  end.

(** [a + b] of two one-dimensional arrays, with numpy's broadcasting:
    equal shapes add element by element, a shape [(1,)] operand is
    stretched, any other pair of shapes is refused. *)
Definition add (a b : signal) : result signal :=
  if Nat.eqb (length a) (length b) then Ok (zip_add a b)
  else match a, b with
       | [u], _ => Ok (map (fun v => fadd u v) b)
       | _, [v] => Ok (map (fun u => fadd u v) a)
       | _, _ => Raise (ValueError "operands could not be broadcast together")
       end.

(** [np.r_[a, b]]: concatenation. *)
Definition r_ (a b : signal) : signal := a ++ b.

(** [a[lo:hi]] for non-negative bounds (out-of-range bounds are clipped). *)
Definition slice {A : Type} (a : list A) (lo hi : nat) : list A :=
  firstn (hi - lo) (skipn lo a).

(** The process-wide random source, seen through [np.random.randint]:
    [draw high] is the integer the next call [randint(high)] returns,
    which numpy takes from [[0, high)]. *)
Record RandomState : Type := {
  draw : nat -> nat;
  draw_lt : forall high : nat, (0 < high)%nat -> (draw high < high)%nat
}.

Definition random_randint (rs : RandomState) (high : nat) : result nat :=
  if Nat.eqb high 0 then Raise (ValueError "high <= 0")
  else Ok (draw rs high).

End np.

Module librosa.

(** [librosa.util.tiny] of a float64 array: the smallest positive normal
    number, [2 ** -1022]. *)
Definition tiny : R := / 2 ^ 1022.

(** [librosa.util.normalize(S)] with its defaults ([norm=np.inf],
    [axis=0], [threshold=None], [fill=None]): the input must be finite;
    it is divided by its largest magnitude, unless that is below [tiny],
    in which case the input is left as it is. *)
Definition normalize (S : signal) : result signal :=
  if negb (forallb isfinite S) then
    Raise (ParameterError "Input must be finite")
  else
    length <- np.max (map fabs S) ;;
    let length := if flt length (Fin tiny) then Fin 1 else length in
    Ok (np.div_scalar S length).

End librosa.

(** ** audioperturbator/utils/ops.py *)

(** Python's [a ** b] for a positive base and a float exponent (the level
    [dB] is a Python number): the result of the C library's [pow];
    [OverflowError] when it exceeds the range of float64, [0.0] when it
    is too small. *)
Definition float_pow (a b : R) : result f64 :=
  if Rlt_dec max_float (Rpower a b) then
    Raise (OverflowError "(34, 'Numerical result out of range')")
  else Ok (Fin (flush (Rpower a b))).

Definition _norm_n_weight (x : signal) (dB : R) : result signal :=
  (* normalize both signal *)
  x <- librosa.normalize x ;;
  (* get the RMS of each signal *)
  let rms := fdiv (np.linalg_norm x) (np.sqrt_int (length x)) in
  (* get the weight *)
  t <- float_pow 10 (dB / 20) ;;
  let ratio := fdiv t rms in
  Ok (np.mul_scalar x ratio).

Definition mix (x0 x1 : signal) (snr : R) : result signal :=
  x0 <- _norm_n_weight x0 0 ;;
  x1 <- _norm_n_weight x1 (- snr) ;;
  s <- np.add x0 x1 ;;
  y <- librosa.normalize s ;;
  Ok y.

(** ** audioperturbator/transform.py: the mixers *)

Module SoundMixer.

Record t : Type := {
  other : signal;
  sample_rate : Z
}.

(** The value line 114 of transform.py binds to the local [other]:
    [np.r_[self.other, self.other[:rem]]] with
    [rem = len(x) - len(self.other)]. *)
Definition repeated (self : t) (x : signal) : signal :=
  let rem := (length x - length (other self))%nat in
  np.r_ (other self) (np.slice (other self) 0 rem).

Definition __call__ (self : t) (rs : np.RandomState) (x : signal) (snr : R)
  : result signal :=
  (* check the length between two signals *)
  if Nat.eqb (length (other self)) (length x) then
    mix x (other self) snr
  else if Nat.ltb (length (other self)) (length x) then
    (* repeat *)
    let other' := repeated self x in
    mix x (other self) snr
  else if Nat.ltb (length x) (length (other self)) then
    (* randomly crop *)
    st <- np.random_randint rs (length (other self) - length x) ;;
    mix x (np.slice (other self) st (st + length x)) snr
  else
    Raise (ValueError "").

End SoundMixer.

Module NoiseMixer.

(** The subclass hook [_generate_noise(length)]. *)
Class Generator : Type := {
  _generate_noise : nat -> result signal
}.

(** The base class leaves the hook unimplemented. *)
Definition base : Generator :=
  {| _generate_noise := fun _ => Raise NotImplementedError |}.


Definition __call__ {G : Generator} (x : signal) (snr : R) : result signal :=
  n <- _generate_noise (length x) ;;
  mix x n snr.

End NoiseMixer.

(** ** audioperturbator/transform.py: the MP3 compressor

    The compressor works on temporary files and runs ffmpeg.  The files
    that exist are the state; what the operating system, ffmpeg and the
    decoder answer during one call is the environment [env]. *)

Record tmpfile : Type := {
  tmp_id : nat;
  tmp_suffix : string
}.

Definition tmpfile_eqb (f g : tmpfile) : bool :=
  Nat.eqb (tmp_id f) (tmp_id g) && String.eqb (tmp_suffix f) (tmp_suffix g).

Record fs : Type := {
  live : list tmpfile;   (* temporary files that exist *)
  next_id : nat          (* the name mkstemp hands out next *)
}.

Inductive process_outcome : Type :=
| Exited (returncode : Z)
| NotStarted (e : exn).   (* the program could not be executed *)

Record env : Type := {
  mkstemp_error : string -> option exn;
  write_error : option exn;
  ffmpeg : process_outcome;
  decoded : result signal
}.

Definition IO (A : Type) : Type := fs -> result A * fs.

Definition io_ret {A : Type} (a : A) : IO A := fun s => (Ok a, s).

Definition io_raise {A : Type} (e : exn) : IO A := fun s => (Raise e, s).

Definition io_bind {A B : Type} (m : IO A) (k : A -> IO B) : IO B :=
  fun s =>
    match m s with
    | (Ok a, s') => k a s'
    | (Raise e, s') => (Raise e, s')
    end.

Notation "x <~ m ;; k" := (io_bind m (fun x => k))
  (at level 61, m at next level, right associativity).

(** [try: body  except <handles> as exc: handler  finally: finalizer]. *)
Definition try_except_finally {A : Type} (body : IO A)
    (handles : exn -> bool) (handler : exn -> IO A) (finalizer : IO unit)
  : IO A :=
  fun s =>
    let (r, s1) := body s in
    let (r', s2) :=
      match r with
      | Ok a => (Ok a, s1)
      | Raise e => if handles e then handler e s1 else (Raise e, s1)
      end in
    match finalizer s2 with
    | (Ok _, s3) => (r', s3)
    | (Raise e, s3) => (Raise e, s3)
    end.

(** [isinstance(e, OSError)]. *)
Definition is_OSError (e : exn) : bool :=
  match e with
  | OSError _ | FileNotFoundError _ => true
  | _ => false
  end.

(** The exception classes a module of this package can name: Python's
    builtins (the package defines none of its own). *)
Definition builtins (name : string) : option (string -> exn) :=
  if String.eqb name "RuntimeError" then Some RuntimeError
  else if String.eqb name "ValueError" then Some ValueError
  else if String.eqb name "OSError" then Some OSError
  else if String.eqb name "FileNotFoundError" then Some FileNotFoundError
  else if String.eqb name "NameError" then Some NameError
  else None.

(** [raise name(msg)]: the name is looked up first. *)
Definition raise_named {A : Type} (name msg : string) : IO A :=
  match builtins name with
  | Some cls => io_raise (cls msg)
  | None => io_raise (NameError name)
  end.

Module tempfile.

(** [fd, path = tempfile.mkstemp(suffix=...)] followed by [os.close(fd)]:
    a new, empty file exists afterwards. *)
Definition mkstemp (E : env) (suffix : string) : IO tmpfile :=
  fun s =>
    match mkstemp_error E suffix with
    | Some e => (Raise e, s)
    | None =>
        let f := {| tmp_id := next_id s; tmp_suffix := suffix |} in
        (Ok f, {| live := f :: live s; next_id := S (next_id s) |})
    end.

End tempfile.

Module os.

Definition unlink (f : tmpfile) : IO unit :=
  fun s =>
    if existsb (tmpfile_eqb f) (live s) then
      (Ok tt, {| live := filter (fun g => negb (tmpfile_eqb f g)) (live s);
                 next_id := next_id s |})
    else (Raise (FileNotFoundError "No such file or directory"), s).

End os.

(** [librosa.output.write_wav(path, y, sr)]: the buffer is validated
    ([util.valid_audio]: it must be finite everywhere), then written. *)
Definition write_wav (E : env) (path : tmpfile) (y : signal) (sr : Z)
  : IO unit :=
  if negb (forallb isfinite y) then
    io_raise (ParameterError "Audio buffer is not finite everywhere")
  else match write_error E with
       | Some e => io_raise e
       | None => io_ret tt
       end.

(** One word of a command line: a literal, the name of a temporary file,
    or the bitrate formatted as ['{:d}k']. *)
Inductive arg : Type :=
| Lit (s : string)
| Path (f : tmpfile)
| Kbps (kbps : Z).

(** [subprocess.check_call(arguments, ...)]. *)
Definition check_call (E : env) (arguments : list arg) : IO unit :=
  match ffmpeg E with
  | Exited 0 => io_ret tt
  | Exited rc => io_raise (CalledProcessError rc)
  | NotStarted e => io_raise e
  end.

(** [librosa.load(path)]; the sample rate it also returns is not used. *)
Definition load (E : env) (path : tmpfile) : IO signal :=
  fun s => (decoded E, s).

(** [MP3Compressor.__call__(x, kbps)]; the flag [return_output] of the
    source is not read by its body and is left out. *)
Module MP3Compressor.

Definition bitrates : list Z :=
  [8; 16; 24; 32; 40; 48; 64; 80; 96; 112; 128; 160; 192; 224; 256; 320]%Z.

Definition __call__ (E : env) (sample_rate : Z) (x : signal) (kbps : Z)
  : IO signal :=
  if negb (existsb (Z.eqb kbps) bitrates) then io_raise AssertionError
  else
    (* get the input and output tempfile *)
    infile <~ tempfile.mkstemp E ".wav" ;;
    outfile <~ tempfile.mkstemp E ".mp3" ;;
    (* dump the audio *)
    _ <~ write_wav E infile x sample_rate ;;
    y <~ try_except_finally
           ((* Execute ffmpeg *)
            _ <~ check_call E [Lit "ffmpeg"; Lit "-y";
                               Lit "-i"; Path infile;
                               Lit "-codec:a"; Lit "libmp3lame";
                               Lit "-b:a"; Kbps kbps;
                               Path outfile] ;;
            (* load the audio back *)
            load E outfile)
           is_OSError
           (fun exc => raise_named "RunTimeError"
              "Failed to execute ffmpeg.Please verify that ffmpeg is installed.")
           ((* close and remove temp files *)
            _ <~ os.unlink infile ;;
            os.unlink outfile) ;;
    io_ret y.

End MP3Compressor.

(** An environment in which nothing fails: both temporary files can be
    created, the dump can be written, ffmpeg exits with status 0 and the
    decoder returns [y]. *)
Definition nominal (y : signal) : env :=
  {| mkstemp_error := fun _ => None;
     write_error := None;
     ffmpeg := Exited 0;
     decoded := Ok y |}.

(** The same, except that the ffmpeg program cannot be executed. *)
Definition no_ffmpeg (y : signal) : env :=
  {| mkstemp_error := fun _ => None;
     write_error := None;
     ffmpeg := NotStarted (FileNotFoundError "ffmpeg");
     decoded := Ok y |}.

(** No temporary file exists. *)
Definition empty_fs : fs := {| live := []; next_id := 0 |}.

(** Names handed out by [mkstemp] are new: every file that exists has a
    smaller identifier than the next one. *)
Definition fresh_names (s : fs) : Prop :=
  Forall (fun f => (tmp_id f < next_id s)%nat) (live s).

(** A random source whose [randint(high)] always returns [high - 1], the
    last offset of the range. *)
Definition last_offset : np.RandomState :=
  {| np.draw := fun high => (high - 1)%nat;
     np.draw_lt := fun high H => Nat.sub_lt high 1 H Nat.lt_0_1 |}.

(** The message of the [ValueError] that [np.max] raises on an empty
    array. *)
Definition zero_size : string :=
  "zero-size array to reduction operation maximum which has no identity".

(** A random source whose [randint(high)] returns [k] whenever [k] is in
    range (and the last offset otherwise). *)
Definition fixed_offset (k : nat) : np.RandomState :=
  {| np.draw := fun high => Nat.min k (high - 1);
     np.draw_lt := fun high H =>
       Nat.le_lt_trans _ _ _ (Nat.le_min_r k (high - 1))
                       (Nat.sub_lt high 1 H Nat.lt_0_1) |}.

(** A mixer over the ten samples [0.0, 1.0, ..., 9.0], and one over the
    three samples [1.0, 2.0, 3.0]. *)
Definition ten_samples : SoundMixer.t :=
  {| SoundMixer.other := map Fin [0; 1; 2; 3; 4; 5; 6; 7; 8; 9];
     SoundMixer.sample_rate := 22050 |}.

Definition three_samples : SoundMixer.t :=
  {| SoundMixer.other := map Fin [1; 2; 3];
     SoundMixer.sample_rate := 22050 |}.

(** A primary signal of five samples. *)
Definition five_samples : signal := map Fin [1; 2; 3; 4; 5].


(** ** Finite signals, seen as lists of reals *)

(** The peak magnitude, the sum of squares and silence of a signal whose
    samples are all finite. *)
Definition Rpeak (s : list R) : R :=
  fold_right (fun v m => Rmax (Rabs v) m) 0 s.

Definition sumsq (s : list R) : R :=
  fold_right (fun v acc => v * v + acc) 0 s.

Definition silent (s : list R) : Prop := Forall (fun v => v = 0) s.

(** The root mean square of a list of reals. *)
Definition Rrms (w : list R) : R := sqrt (sumsq w) / sqrt (INR (length w)).

(** The root mean square, as line 39 of ops.py computes it. *)
Definition rms (x : signal) : f64 :=
  fdiv (np.linalg_norm x) (np.sqrt_int (length x)).

(** The peak absolute amplitude, [np.max(np.abs(x))]. *)
Definition peak (x : signal) : result f64 := np.max (map fabs x).

(** The gain line 42 of ops.py reaches on a signal that is not silent,
    and the weighted signal, when no intermediate result leaves the
    range of float64. *)
Definition gain (s : list R) (dB : R) : R :=
  Rpower 10 (dB / 20) * sqrt (INR (length s)) / sqrt (sumsq s).

Definition weighted (s : list R) (dB : R) : list R :=
  map (fun v => v * gain s dB) s.

(** The divisor [librosa.normalize] settles on. *)
Definition divisor (s : list R) : R :=
  if Rlt_dec (Rpeak s) librosa.tiny then 1 else Rpeak s.

(** The sum of two finite signals, sample by sample. *)
Definition Rzip_add (a b : list R) : list R :=
  map (fun uv => fst uv + snd uv) (combine a b).

(** The same computations with the underflow of float64: what
    [librosa.normalize] returns, the dot product of a signal with
    itself, the RMS of the normalized signal, the gain and the weighted
    signal, and a sum of signals. *)
Definition normalized (s : list R) : list R :=
  map (fun v => flush (v / divisor s)) s.

Definition dot_self (x : list R) : R :=
  fold_right (fun v acc => flush (v * v) + acc) 0 x.

Definition rms_normalized (s : list R) : R :=
  sqrt (dot_self (normalized s)) / sqrt (INR (length s)).

Definition ratio (s : list R) (dB : R) : R :=
  Rpower 10 (dB / 20) / rms_normalized s.

Definition weightedF (s : list R) (dB : R) : list R :=
  map (fun v => flush (v * ratio s dB)) (normalized s).

Definition summed (a b : list R) : list R := map flush (Rzip_add a b).

(** What [mix] returns on signals of equal length whose peaks are normal
    numbers. *)
Definition mixed (p q : list R) (snr : R) : list R :=
  normalized (summed (weightedF p 0) (weightedF q (- snr))).

(** *** The inputs the theorems are about *)

(** A level whose power of ten is far inside the range of float64:
    [10 ** (dB / 20)] lies between [1e-100] and [1e100]. *)
Definition level_ok (dB : R) : Prop := -2000 <= dB <= 2000.

(** An array has fewer than [2 ** 63] elements. *)
Definition sized {A : Type} (s : list A) : Prop := INR (length s) <= 2 ^ 63.

(** The peak is a normal number: [librosa.normalize] divides by it. *)
Definition audible (s : list R) : Prop := librosa.tiny <= Rpeak s.

(** Every sample is zero or within a factor [2 ** 500] of the peak, so
    that neither a sample divided by the peak nor its square
    underflows. *)
Definition dynamic : R := / 2 ^ 500.

Definition within_range (s : list R) : Prop :=
  Forall (fun v => v = 0 \/ dynamic * Rpeak s <= Rabs v) s.

(** A real number that is a float64 value, rounding apart. *)
Definition representable (v : R) : Prop :=
  v = 0 \/ min_float <= Rabs v <= max_float.

(** Signals of at most 1024 samples whose non-zero samples have a
    magnitude between 1 and 1024. *)
Definition plain (s : list R) : Prop :=
  Forall (fun v => v = 0 \/ 1 <= Rabs v <= 1024) s
  /\ (length s <= 1024)%nat.

(** *** The range of float64 *)

Lemma pow2_pos (k : nat) : 0 < 2 ^ k.
Proof. apply pow_lt. lra. Qed.

Lemma pow2_le (k m : nat) : (k <= m)%nat -> 2 ^ k <= 2 ^ m.
Proof. intros H. apply Rle_pow; [lra | exact H]. Qed.

Lemma pow2_ge_1 (k : nat) : 1 <= 2 ^ k.
Proof. apply pow_R1_Rle. lra. Qed.

Lemma inv_pow2_pos (k : nat) : 0 < / 2 ^ k.
Proof. apply Rinv_0_lt_compat, pow2_pos. Qed.

Lemma inv_pow2_le (k m : nat) : (k <= m)%nat -> / 2 ^ m <= / 2 ^ k.
Proof.
  intros H. apply Rinv_le_contravar; [apply pow2_pos | apply pow2_le, H].
Qed.

Lemma inv_pow2_le_1 (k : nat) : / 2 ^ k <= 1.
Proof.
  rewrite <- Rinv_1. apply Rinv_le_contravar; [lra | apply pow2_ge_1].
Qed.

Lemma pow2_mult (k m : nat) : 2 ^ k * 2 ^ m = 2 ^ (k + m).
Proof. symmetry. apply pow_add. Qed.

Lemma inv_pow2_mult (k m : nat) : / 2 ^ k * / 2 ^ m = / 2 ^ (k + m).
Proof.
  rewrite <- Rinv_mult, pow2_mult. reflexivity.
Qed.

Lemma max_float_ge (k : nat) : (k <= 1023)%nat -> 2 ^ k <= max_float.
Proof.
  intros H. unfold max_float.
  pose proof (pow2_le k 1023 H) as Hk.
  pose proof (pow2_pos 1023) as Hp.
  pose proof (inv_pow2_le_1 52) as Hi.
  assert (1 * 2 ^ 1023 <= (2 - / 2 ^ 52) * 2 ^ 1023).
  { apply Rmult_le_compat_r; lra. }
  lra.
Qed.

Lemma max_float_pos : 0 < max_float.
Proof.
  pose proof (max_float_ge 0). simpl in H. assert (1 <= max_float) by (apply H; lia). lra.
Qed.

Lemma half_min_float : min_float / 2 = / 2 ^ 1075.
Proof.
  unfold min_float.
  change (2 ^ 1075) with (2 * 2 ^ 1074).
  rewrite Rinv_mult. unfold Rdiv. apply Rmult_comm.
Qed.

Lemma min_float_pos : 0 < min_float.
Proof. unfold min_float. apply inv_pow2_pos. Qed.

Lemma min_float_le (k : nat) : (k <= 1074)%nat -> min_float <= / 2 ^ k.
Proof. intros H. unfold min_float. apply inv_pow2_le, H. Qed.

Lemma threshold_le (k : nat) : (k <= 1075)%nat -> min_float / 2 <= / 2 ^ k.
Proof. intros H. rewrite half_min_float. apply inv_pow2_le, H. Qed.

Lemma tiny_pos : 0 < librosa.tiny.
Proof. unfold librosa.tiny. apply inv_pow2_pos. Qed.

Lemma tiny_le_1 : librosa.tiny <= 1.
Proof. unfold librosa.tiny. apply inv_pow2_le_1. Qed.

Lemma tiny_le (k : nat) : (k <= 1022)%nat -> librosa.tiny <= / 2 ^ k.
Proof. intros H. unfold librosa.tiny. apply inv_pow2_le, H. Qed.

Lemma tiny_square : librosa.tiny * librosa.tiny < min_float / 2.
Proof.
  unfold librosa.tiny. rewrite inv_pow2_mult, half_min_float.
  apply Rinv_lt_contravar.
  - apply Rmult_lt_0_compat; apply pow2_pos.
  - apply Rlt_pow; [lra | lia].
Qed.

Lemma dynamic_pos : 0 < dynamic.
Proof. unfold dynamic. apply inv_pow2_pos. Qed.

Lemma dynamic_eq : dynamic = / 2 ^ 500.
Proof. reflexivity. Qed.


Lemma min_float_eq : min_float = / 2 ^ 1074.
Proof. reflexivity. Qed.


Global Opaque max_float min_float librosa.tiny dynamic.

(** *** Rounding to the range *)

Lemma flush_zero : flush 0 = 0.
Proof. unfold flush. destruct (Rlt_dec (Rabs 0) (min_float / 2)); reflexivity. Qed.

Lemma flush_exact (r : R) (k : nat) :
  / 2 ^ k <= Rabs r -> (k <= 1075)%nat -> flush r = r.
Proof.
  intros H Hk. unfold flush. pose proof (threshold_le k Hk).
  destruct (Rlt_dec (Rabs r) (min_float / 2)); [lra | reflexivity].
Qed.

Lemma flush_small (r : R) : Rabs r < min_float / 2 -> flush r = 0.
Proof.
  intros H. unfold flush.
  destruct (Rlt_dec (Rabs r) (min_float / 2)); [reflexivity | contradiction].
Qed.

Lemma flush_cases (r : R) :
  flush r = 0 \/ (flush r = r /\ min_float / 2 <= Rabs r).
Proof.
  unfold flush. destruct (Rlt_dec (Rabs r) (min_float / 2)) as [H|H].
  - left. reflexivity.
  - right. split; [reflexivity | lra].
Qed.

Lemma flush_abs_le (r : R) : Rabs (flush r) <= Rabs r.
Proof.
  destruct (flush_cases r) as [E|[E _]]; rewrite E.
  - rewrite Rabs_R0. apply Rabs_pos.
  - lra.
Qed.


Lemma flush_nonneg (r : R) : 0 <= r -> 0 <= flush r.
Proof.
  intros H. destruct (flush_cases r) as [E|[E _]]; rewrite E; lra.
Qed.

Lemma flush_le (r : R) : 0 <= r -> flush r <= r.
Proof.
  intros H. destruct (flush_cases r) as [E|[E _]]; rewrite E; lra.
Qed.

Lemma rnd_bounded (r : R) (m : nat) :
  Rabs r <= 2 ^ m -> (m <= 1023)%nat -> rnd r = Fin (flush r).
Proof.
  intros H Hm. unfold rnd. pose proof (max_float_ge m Hm).
  destruct (Rlt_dec max_float (Rabs r)); [lra | reflexivity].
Qed.

Lemma rnd_exact (r : R) (k m : nat) :
  / 2 ^ k <= Rabs r <= 2 ^ m -> (k <= 1075)%nat -> (m <= 1023)%nat ->
  rnd r = Fin r.
Proof.
  intros [H1 H2] Hk Hm. rewrite (rnd_bounded r m H2 Hm).
  rewrite (flush_exact r k H1 Hk). reflexivity.
Qed.

Lemma rnd_zero : rnd 0 = Fin 0.
Proof.
  rewrite (rnd_bounded 0 0); [rewrite flush_zero; reflexivity | | lia].
  rewrite Rabs_R0. simpl. lra.
Qed.

Lemma rnd_unit (r : R) : Rabs r <= 1 -> rnd r = Fin (flush r).
Proof. intros H. apply (rnd_bounded r 0); [simpl; lra | lia]. Qed.

(** *** The level *)

Lemma target_pos (dB : R) : 0 < Rpower 10 (dB / 20).
Proof. unfold Rpower. apply exp_pos. Qed.

Lemma ten_pow_100 : Rpower 10 100 <= 2 ^ 400.
Proof.
  replace 100 with (INR 100) by (rewrite INR_IZR_INZ; reflexivity).
  rewrite Rpower_pow by lra.
  change 400%nat with (4 * 100)%nat. rewrite pow_mult.
  apply pow_incr. simpl. lra.
Qed.



Lemma target_le (dB : R) : dB <= 2000 -> Rpower 10 (dB / 20) <= 2 ^ 400.
Proof.
  intros H. eapply Rle_trans; [|apply ten_pow_100].
  apply Rle_Rpower; lra.
Qed.

Lemma target_ge (dB : R) : -2000 <= dB -> / 2 ^ 400 <= Rpower 10 (dB / 20).
Proof.
  intros H.
  replace (dB / 20) with (- (- dB / 20)) by lra.
  rewrite Rpower_Ropp.
  apply Rinv_le_contravar; [apply target_pos | apply target_le; lra].
Qed.

Lemma level_ok_opp (dB : R) : level_ok dB -> level_ok (- dB).
Proof. unfold level_ok. lra. Qed.

Lemma level_ok_0 : level_ok 0.
Proof. unfold level_ok. lra. Qed.

Lemma float_pow_ok (dB : R) :
  level_ok dB ->
  float_pow 10 (dB / 20) = Ok (Fin (Rpower 10 (dB / 20))).
Proof.
  intros [Hl Hu]. unfold float_pow.
  pose proof (target_le dB Hu) as H1. pose proof (target_ge dB Hl) as H2.
  pose proof (max_float_ge 400) as H3.
  destruct (Rlt_dec max_float (Rpower 10 (dB / 20))) as [H|_].
  - assert (2 ^ 400 <= max_float) by (apply H3; lia). lra.
  - rewrite (flush_exact _ 400); [reflexivity | | lia].
    rewrite Rabs_right; [exact H2 | left; apply target_pos].
Qed.
(** *** Peak *)

Lemma Rpeak_nonneg (s : list R) : 0 <= Rpeak s.
Proof.
  induction s as [|v s IH]; simpl; [lra|].
  eapply Rle_trans; [exact IH | apply Rmax_r].
Qed.

Lemma Rpeak_ge (s : list R) (v : R) : In v s -> Rabs v <= Rpeak s.
Proof.
  induction s as [|u s IH]; simpl; [tauto|].
  intros [->|Hin].
  - apply Rmax_l.
  - eapply Rle_trans; [apply IH, Hin | apply Rmax_r].
Qed.

Lemma Rpeak_scale (s : list R) (k : R) :
  0 <= k -> Rpeak (map (fun v => v * k) s) = Rpeak s * k.
Proof.
  intros Hk. induction s as [|v s IH]; simpl; [lra|].
  rewrite IH, Rabs_mult, (Rabs_right k) by lra.
  rewrite !(Rmult_comm _ k). apply RmaxRmult. exact Hk.
Qed.

Lemma Rpeak_silent (s : list R) : silent s <-> Rpeak s = 0.
Proof.
  unfold silent. induction s as [|v s IH]; simpl.
  - split; [reflexivity | constructor].
  - pose proof (Rpeak_nonneg s) as Hs. pose proof (Rabs_pos v) as Hv.
    split.
    + intros H. inversion H as [|? ? H0 Hr]; subst.
      apply IH in Hr. rewrite Hr, Rabs_R0. apply Rmax_left. lra.
    + intros H.
      assert (Rabs v <= 0) by (rewrite <- H; apply Rmax_l).
      assert (Rpeak s <= 0) by (rewrite <- H; apply Rmax_r).
      constructor.
      * destruct (Req_dec v 0) as [E|E]; [exact E|].
        apply Rabs_pos_lt in E. lra.
      * apply IH. lra.
Qed.

Lemma Rpeak_pos (s : list R) : ~ silent s -> 0 < Rpeak s.
Proof.
  intros H. pose proof (Rpeak_nonneg s) as Hs.
  destruct (Req_dec (Rpeak s) 0) as [E|E]; [|lra].
  exfalso. apply H, Rpeak_silent, E.
Qed.

(** *** Sum of squares *)

Lemma sumsq_nonneg (s : list R) : 0 <= sumsq s.
Proof.
  induction s as [|v s IH]; simpl; [lra|]. nra.
Qed.

Lemma sumsq_scale (s : list R) (k : R) :
  sumsq (map (fun v => v * k) s) = sumsq s * (k * k).
Proof.
  induction s as [|v s IH]; simpl; [lra|]. rewrite IH. ring.
Qed.

Lemma sumsq_silent (s : list R) : silent s <-> sumsq s = 0.
Proof.
  unfold silent. induction s as [|v s IH]; simpl.
  - split; [reflexivity | constructor].
  - pose proof (sumsq_nonneg s) as Hs.
    split.
    + intros H. inversion H as [|? ? H0 Hr]; subst.
      apply IH in Hr. rewrite Hr. ring.
    + intros H. constructor; [nra|]. apply IH. nra.
Qed.

Lemma sumsq_pos (s : list R) : ~ silent s -> 0 < sumsq s.
Proof.
  intros H. pose proof (sumsq_nonneg s) as Hs.
  destruct (Req_dec (sumsq s) 0) as [E|E]; [|lra].
  exfalso. apply H, sumsq_silent, E.
Qed.

Lemma sumsq_le_peak (s : list R) :
  sumsq s <= INR (length s) * (Rpeak s * Rpeak s).
Proof.
  assert (G : forall m, (forall v, In v s -> Rabs v <= m) ->
                        sumsq s <= INR (length s) * (m * m)).
  { intros m. induction s as [|v s IH]; intros Hm.
    - simpl. lra.
    - change (length (v :: s)) with (S (length s)). rewrite S_INR.
      simpl sumsq.
      assert (Hv : Rabs v <= m) by (apply Hm; left; reflexivity).
      assert (Hs : sumsq s <= INR (length s) * (m * m))
        by (apply IH; intros u Hu; apply Hm; right; exact Hu).
      assert (v * v <= m * m).
      { pose proof (Rabs_pos v) as Hp.
        assert (Hq : v * v = Rabs v * Rabs v)
          by (rewrite <- Rabs_mult; symmetry; apply Rabs_right; nra).
        rewrite Hq. nra. }
      lra. }
  apply G. intros v Hv. apply Rpeak_ge, Hv.
Qed.

Lemma sqrt_sumsq_scale (s : list R) (k : R) :
  0 <= k -> sqrt (sumsq (map (fun v => v * k) s)) = sqrt (sumsq s) * k.
Proof.
  intros Hk. rewrite sumsq_scale.
  rewrite sqrt_mult_alt by apply sumsq_nonneg.
  rewrite sqrt_square by exact Hk. reflexivity.
Qed.

Lemma Rabs_sqr_eq (v : R) : Rabs v * Rabs v = v * v.
Proof.
  rewrite <- Rabs_mult. apply Rabs_right. nra.
Qed.

Lemma Rpeak_sq_le_sumsq (s : list R) : Rpeak s * Rpeak s <= sumsq s.
Proof.
  induction s as [|v s IH]; simpl; [lra|].
  pose proof (sumsq_nonneg s) as Hs. pose proof (Rabs_sqr_eq v) as Hv.
  unfold Rmax. destruct (Rle_dec (Rabs v) (Rpeak s)); nra.
Qed.

Lemma Rpeak_attained (s : list R) :
  s <> [] -> exists v, In v s /\ Rabs v = Rpeak s.
Proof.
  induction s as [|u s IH]; [congruence|]. intros _.
  change (Rpeak (u :: s)) with (Rmax (Rabs u) (Rpeak s)).
  destruct s as [|u' s'].
  - exists u. split; [left; reflexivity|].
    simpl. rewrite Rmax_left; [reflexivity | apply Rabs_pos].
  - destruct IH as (v & Hin & Hv); [discriminate|].
    unfold Rmax. destruct (Rle_dec (Rabs u) (Rpeak (u' :: s'))).
    + exists v. split; [right; exact Hin | exact Hv].
    + exists u. split; [left; reflexivity | reflexivity].
Qed.

Lemma Rpeak_le_bound (s : list R) (m : R) :
  0 <= m -> (forall v, In v s -> Rabs v <= m) -> Rpeak s <= m.
Proof.
  intros Hm. induction s as [|u s IH]; intros H; simpl; [exact Hm|].
  apply Rmax_lub.
  - apply H. left. reflexivity.
  - apply IH. intros v Hv. apply H. right. exact Hv.
Qed.

(** *** The primitives on finite signals *)

Lemma isfinite_map_Fin (s : list R) : forallb isfinite (map Fin s) = true.
Proof. induction s as [|v s IH]; simpl; [reflexivity | exact IH]. Qed.

Lemma signed_inf_pos (r : R) : 0 < r -> signed_inf r = PInf.
Proof.
  intros H. unfold signed_inf. destruct (Rlt_dec 0 r); [reflexivity | lra].
Qed.

Lemma signed_inf_neg (r : R) : r < 0 -> signed_inf r = NInf.
Proof.
  intros H. unfold signed_inf.
  destruct (Rlt_dec 0 r); [lra|]. destruct (Rlt_dec r 0); [reflexivity | lra].
Qed.

Lemma signed_inf_zero : signed_inf 0 = NaN.
Proof.
  unfold signed_inf.
  destruct (Rlt_dec 0 0); [lra|]. destruct (Rlt_dec 0 0); [lra | reflexivity].
Qed.

Lemma signed_inf_not_finite (r : R) : isfinite (signed_inf r) = false.
Proof.
  unfold signed_inf. destruct (Rlt_dec 0 r); [reflexivity|].
  destruct (Rlt_dec r 0); reflexivity.
Qed.

Lemma fdiv_rnd (a b : R) : b <> 0 -> fdiv (Fin a) (Fin b) = rnd (a / b).
Proof.
  intros H. simpl. destruct (Req_dec_T b 0); [contradiction | reflexivity].
Qed.

Lemma fsqrt_Fin (a : R) : 0 <= a -> fsqrt (Fin a) = Fin (sqrt a).
Proof.
  intros H. simpl. destruct (Rlt_dec a 0); [lra | reflexivity].
Qed.

Lemma fold_fmax_Fin (l : list R) (a : R) :
  0 <= a ->
  fold_left fmax (map fabs (map Fin l)) (Fin a) = Fin (Rmax a (Rpeak l)).
Proof.
  revert a. induction l as [|v l IH]; intros a Ha; simpl.
  - rewrite Rmax_left by exact Ha. reflexivity.
  - rewrite IH.
    + rewrite Rmax_assoc. reflexivity.
    + eapply Rle_trans; [exact Ha | apply Rmax_l].
Qed.

Lemma peak_Fin (s : list R) :
  s <> [] -> peak (map Fin s) = Ok (Fin (Rpeak s)).
Proof.
  destruct s as [|v s]; [congruence|]. intros _.
  unfold peak. simpl. rewrite fold_fmax_Fin by apply Rabs_pos. reflexivity.
Qed.

Lemma divisor_pos (s : list R) : 0 < divisor s.
Proof.
  unfold divisor. pose proof tiny_pos.
  destruct (Rlt_dec (Rpeak s) librosa.tiny); lra.
Qed.

Lemma divisor_audible (s : list R) : audible s -> divisor s = Rpeak s.
Proof.
  unfold audible, divisor. intros H.
  destruct (Rlt_dec (Rpeak s) librosa.tiny); [lra | reflexivity].
Qed.

Lemma divisor_faint (s : list R) : Rpeak s < librosa.tiny -> divisor s = 1.
Proof.
  unfold divisor. intros H.
  destruct (Rlt_dec (Rpeak s) librosa.tiny); [reflexivity | lra].
Qed.

Lemma Rabs_quotient (v d : R) : 0 < d -> Rabs (v / d) = Rabs v / d.
Proof.
  intros H. unfold Rdiv. rewrite Rabs_mult. f_equal.
  apply Rabs_right. left. apply Rinv_0_lt_compat, H.
Qed.

Lemma quotient_le_1 (s : list R) (v : R) :
  In v s -> Rabs (v / divisor s) <= 1.
Proof.
  intros Hin. pose proof (Rpeak_ge s v Hin) as Hv.
  pose proof (divisor_pos s) as Hd. pose proof tiny_le_1 as Ht.
  rewrite Rabs_quotient by exact Hd.
  apply (Rmult_le_reg_r (divisor s)); [exact Hd|].
  unfold Rdiv. rewrite Rmult_assoc, Rinv_l, Rmult_1_r, Rmult_1_l by lra.
  unfold divisor. destruct (Rlt_dec (Rpeak s) librosa.tiny); lra.
Qed.

Lemma normalize_Fin (s : list R) :
  s <> [] -> librosa.normalize (map Fin s) = Ok (map Fin (normalized s)).
Proof.
  intros Hs. unfold librosa.normalize.
  rewrite isfinite_map_Fin. simpl negb. cbv iota.
  fold (peak (map Fin s)). rewrite (peak_Fin s Hs). unfold bind.
  pose proof (divisor_pos s) as Hd.
  assert (E : (if flt (Fin (Rpeak s)) (Fin librosa.tiny) then Fin 1
               else Fin (Rpeak s)) = Fin (divisor s)).
  { unfold divisor, flt.
    destruct (Rlt_dec (Rpeak s) librosa.tiny); reflexivity. }
  cbv zeta. rewrite E. f_equal.
  unfold np.div_scalar, normalized. rewrite !map_map.
  apply map_ext_in. intros v Hv.
  rewrite fdiv_rnd by lra. apply rnd_unit, quotient_le_1, Hv.
Qed.

Lemma normalized_length (s : list R) : length (normalized s) = length s.
Proof. unfold normalized. apply length_map. Qed.

Lemma normalized_bounded (s : list R) :
  Forall (fun x => Rabs x <= 1) (normalized s).
Proof.
  unfold normalized. apply Forall_forall. intros x Hx.
  apply in_map_iff in Hx. destruct Hx as (v & <- & Hv).
  eapply Rle_trans; [apply flush_abs_le | apply quotient_le_1, Hv].
Qed.

Lemma normalized_unit_sample (s : list R) :
  s <> [] -> audible s ->
  exists x, In x (normalized s) /\ Rabs x = 1.
Proof.
  intros Hs Ha. destruct (Rpeak_attained s Hs) as (v & Hin & Hv).
  pose proof tiny_pos as Ht. unfold audible in Ha.
  assert (E : Rabs (v / divisor s) = 1).
  { rewrite Rabs_quotient by apply divisor_pos.
    rewrite divisor_audible by exact Ha. rewrite Hv. field. lra. }
  exists (flush (v / divisor s)). split.
  - unfold normalized. apply in_map_iff. exists v. split; [reflexivity | exact Hin].
  - rewrite (flush_exact _ 0); [exact E | simpl; rewrite E; lra | lia].
Qed.


(** *** The dot product *)

Lemma flush_grid (r : R) :
  r = 0 \/ min_float / 2 <= Rabs r -> flush r = r.
Proof.
  intros [-> | H]; [apply flush_zero|].
  unfold flush. destruct (Rlt_dec (Rabs r) (min_float / 2)); [lra | reflexivity].
Qed.

Lemma dot_self_grid (x : list R) :
  0 <= dot_self x /\ (dot_self x = 0 \/ min_float / 2 <= dot_self x).
Proof.
  induction x as [|v x [IH1 IH2]]; simpl; [split; [lra | left; reflexivity]|].
  assert (Hv : 0 <= v * v) by nra.
  pose proof (flush_nonneg _ Hv) as Hf.
  split; [lra|].
  destruct (flush_cases (v * v)) as [E|[E H]].
  - rewrite E, Rplus_0_l. exact IH2.
  - right. rewrite E. rewrite Rabs_right in H by lra. lra.
Qed.

Lemma dot_self_le (x : list R) :
  Forall (fun v => Rabs v <= 1) x -> dot_self x <= INR (length x).
Proof.
  induction 1 as [|v x Hv Hx IH].
  - simpl. lra.
  - change (length (v :: x)) with (S (length x)). rewrite S_INR.
    simpl dot_self.
    assert (H0 : 0 <= v * v) by nra.
    pose proof (flush_le _ H0) as Hf.
    assert (v * v <= 1).
    { rewrite <- Rabs_sqr_eq. pose proof (Rabs_pos v). nra. }
    lra.
Qed.

Lemma dot_self_ge (x : list R) (v : R) :
  In v x -> flush (v * v) <= dot_self x.
Proof.
  induction x as [|u x IH]; simpl; [tauto|].
  destruct (dot_self_grid x) as [Hx _].
  intros [->|Hin].
  - lra.
  - assert (H0 : 0 <= u * u) by nra.
    pose proof (flush_nonneg _ H0). specialize (IH Hin). lra.
Qed.

Lemma sized_tail {A : Type} (v : A) (x : list A) : sized (v :: x) -> sized x.
Proof.
  unfold sized. change (length (v :: x)) with (S (length x)).
  rewrite S_INR. lra.
Qed.

Lemma sum_squares_Fin (x : list R) :
  Forall (fun v => Rabs v <= 1) x -> sized x ->
  np.sum (map (fun v => fmul v v) (map Fin x)) = Fin (dot_self x).
Proof.
  unfold np.sum. induction 1 as [|v x Hv Hx IH]; intros Hn;
    [reflexivity|].
  simpl map. simpl fold_right.
  rewrite (IH (sized_tail _ _ Hn)).
  assert (Hvv : Rabs (v * v) <= 1).
  { rewrite Rabs_mult. pose proof (Rabs_pos v). nra. }
  rewrite (rnd_unit _ Hvv). simpl fadd.
  pose proof (dot_self_grid (v :: x)) as [G1 G2].
  assert (G3 : dot_self (v :: x) <= INR (length (v :: x)))
    by (apply dot_self_le; constructor; assumption).
  simpl dot_self in G1, G2, G3 |- *.
  rewrite (rnd_bounded _ 63); [| |lia].
  - rewrite flush_grid; [reflexivity|].
    destruct G2 as [G2|G2]; [left; exact G2|].
    right. rewrite Rabs_right by lra. exact G2.
  - rewrite Rabs_right by lra. unfold sized in Hn. lra.
Qed.

Lemma linalg_norm_Fin (x : list R) :
  Forall (fun v => Rabs v <= 1) x -> sized x ->
  np.linalg_norm (map Fin x) = Fin (sqrt (dot_self x)).
Proof.
  intros Hx Hn. unfold np.linalg_norm. rewrite sum_squares_Fin by assumption.
  apply fsqrt_Fin, dot_self_grid.
Qed.

Lemma sqrt_len_pos {A : Type} (s : list A) :
  s <> [] -> 0 < sqrt (INR (length s)).
Proof.
  intros Hs. apply sqrt_lt_R0. apply lt_0_INR.
  destruct s; [congruence | simpl; lia].
Qed.

Lemma sqrt_len_ge_1 {A : Type} (s : list A) :
  s <> [] -> 1 <= sqrt (INR (length s)).
Proof.
  intros Hs. rewrite <- sqrt_1. apply sqrt_le_1_alt.
  destruct s; [congruence|].
  change (length (a :: s)) with (S (length s)). rewrite S_INR.
  pose proof (pos_INR (length s)). lra.
Qed.

Lemma sqrt_len_le {A : Type} (s : list A) :
  sized s -> sqrt (INR (length s)) <= 2 ^ 32.
Proof.
  intros Hn. unfold sized in Hn.
  rewrite <- (sqrt_square (2 ^ 32)) by (left; apply pow2_pos).
  apply sqrt_le_1_alt. rewrite pow2_mult.
  pose proof (pow2_le 63 (32 + 32)). assert (2 ^ 63 <= 2 ^ (32 + 32)) by (apply H; lia).
  lra.
Qed.

(** *** [_norm_n_weight] on audible signals *)

(** Name the root mean square where a goal spells it out. *)
Ltac fold_rms :=
  match goal with
  | |- context [fdiv (np.linalg_norm ?x) (np.sqrt_int (length ?x))] =>
      change (fdiv (np.linalg_norm x) (np.sqrt_int (length x))) with (rms x)
  end.

Lemma nonempty_length {A : Type} (s : list A) : (1 <= length s)%nat -> s <> [].
Proof. destruct s; simpl; [lia | congruence]. Qed.

Lemma audible_not_silent (s : list R) : audible s -> ~ silent s.
Proof.
  unfold audible. intros Ha Hz. apply Rpeak_silent in Hz.
  pose proof tiny_pos. lra.
Qed.

Lemma dot_normalized_bounds (s : list R) :
  s <> [] -> audible s ->
  1 <= dot_self (normalized s) <= INR (length s).
Proof.
  intros Hs Ha. split.
  - destruct (normalized_unit_sample s Hs Ha) as (x & Hin & Hx).
    pose proof (dot_self_ge _ x Hin) as H.
    assert (E : x * x = 1) by (rewrite <- Rabs_sqr_eq, Hx; ring).
    rewrite E in H. rewrite (flush_exact 1 0) in H; [exact H | | lia].
    rewrite Rabs_R1. simpl. lra.
  - rewrite <- (normalized_length s).
    apply dot_self_le, normalized_bounded.
Qed.

Lemma rms_normalized_bounds (s : list R) :
  s <> [] -> audible s -> sized s ->
  / 2 ^ 32 <= rms_normalized s <= 1.
Proof.
  intros Hs Ha Hn. unfold rms_normalized.
  destruct (dot_normalized_bounds s Hs Ha) as [D1 D2].
  pose proof (sqrt_len_pos s Hs) as L0.
  pose proof (sqrt_len_le s Hn) as L2.
  assert (A1 : 1 <= sqrt (dot_self (normalized s)))
    by (rewrite <- sqrt_1; apply sqrt_le_1_alt, D1).
  assert (A2 : sqrt (dot_self (normalized s)) <= sqrt (INR (length s)))
    by (apply sqrt_le_1_alt, D2).
  pose proof (pow2_pos 32) as P.
  split.
  - apply Rle_trans with (/ sqrt (INR (length s))).
    + apply Rinv_le_contravar; assumption.
    + apply (Rmult_le_reg_r (sqrt (INR (length s)))); [exact L0|].
      unfold Rdiv. rewrite Rinv_l, Rmult_assoc, Rinv_l, Rmult_1_r by lra.
      exact A1.
  - apply (Rmult_le_reg_r (sqrt (INR (length s)))); [exact L0|].
    unfold Rdiv. rewrite Rmult_assoc, Rinv_l, Rmult_1_r, Rmult_1_l by lra.
    exact A2.
Qed.

Lemma sized_normalized (s : list R) : sized s -> sized (normalized s).
Proof. unfold sized. rewrite normalized_length. tauto. Qed.

Lemma rms_audible (s : list R) :
  s <> [] -> audible s -> sized s ->
  rms (map Fin (normalized s)) = Fin (rms_normalized s).
Proof.
  intros Hs Ha Hn. unfold rms, np.sqrt_int.
  rewrite linalg_norm_Fin
    by (try apply normalized_bounded; apply sized_normalized, Hn).
  rewrite length_map, normalized_length, fsqrt_Fin by apply pos_INR.
  pose proof (sqrt_len_pos s Hs) as L0.
  rewrite fdiv_rnd by lra.
  destruct (rms_normalized_bounds s Hs Ha Hn) as [B1 B2].
  apply (rnd_exact _ 32 0); [|lia|lia].
  fold (rms_normalized s).
  rewrite Rabs_right; [simpl; lra|].
  pose proof (inv_pow2_pos 32). lra.
Qed.

Lemma ratio_bounds (s : list R) (dB : R) :
  s <> [] -> audible s -> sized s -> level_ok dB ->
  Rpower 10 (dB / 20) <= ratio s dB
  /\ / 2 ^ 400 <= ratio s dB <= 2 ^ 432.
Proof.
  intros Hs Ha Hn [Hl Hu]. unfold ratio.
  destruct (rms_normalized_bounds s Hs Ha Hn) as [B1 B2].
  pose proof (inv_pow2_pos 32) as P.
  pose proof (target_pos dB) as T0.
  pose proof (target_le dB Hu) as T1.
  pose proof (target_ge dB Hl) as T2.
  set (T := Rpower 10 (dB / 20)) in *.
  set (r := rms_normalized s) in *.
  assert (R0 : 0 < r) by lra.
  assert (I1 : 1 <= / r).
  { rewrite <- Rinv_1. apply Rinv_le_contravar; lra. }
  assert (I2 : / r <= 2 ^ 32).
  { rewrite <- (Rinv_inv (2 ^ 32)). apply Rinv_le_contravar; lra. }
  assert (G1 : T <= T / r).
  { unfold Rdiv. rewrite <- (Rmult_1_r T) at 1.
    apply Rmult_le_compat_l; lra. }
  assert (G2 : T / r <= 2 ^ 400 * 2 ^ 32).
  { unfold Rdiv. apply Rmult_le_compat; lra. }
  rewrite pow2_mult in G2. simpl Nat.add in G2.
  repeat split; lra.
Qed.

Lemma weightedF_length (s : list R) (dB : R) :
  length (weightedF s dB) = length s.
Proof. unfold weightedF. rewrite length_map. apply normalized_length. Qed.

Lemma norm_n_weight_audible (s : list R) (dB : R) :
  s <> [] -> audible s -> sized s -> level_ok dB ->
  _norm_n_weight (map Fin s) dB = Ok (map Fin (weightedF s dB)).
Proof.
  intros Hs Ha Hn Hd. unfold _norm_n_weight.
  rewrite normalize_Fin by exact Hs. cbn [bind]. cbv zeta.
  fold_rms. rewrite (rms_audible s Hs Ha Hn).
  rewrite (float_pow_ok dB Hd). cbn [bind].
  destruct (rms_normalized_bounds s Hs Ha Hn) as [B1 B2].
  destruct (ratio_bounds s dB Hs Ha Hn Hd) as (R1 & R2 & R3).
  pose proof (inv_pow2_pos 32) as P32.
  pose proof (inv_pow2_pos 400) as P400.
  rewrite fdiv_rnd by lra. fold (ratio s dB).
  rewrite (rnd_exact _ 400 432); [| |lia|lia].
  - f_equal. unfold np.mul_scalar, weightedF. rewrite !map_map.
    apply map_ext_in. intros v Hv. simpl fmul.
    apply (rnd_bounded _ 432); [|lia].
    pose proof (normalized_bounded s) as Hb.
    rewrite Forall_forall in Hb. specialize (Hb v Hv).
    rewrite Rabs_mult, (Rabs_right (ratio s dB)) by lra.
    pose proof (Rabs_pos v). nra.
  - rewrite Rabs_right by lra. lra.
Qed.

Lemma weightedF_bounded (s : list R) (dB : R) :
  s <> [] -> audible s -> sized s -> level_ok dB ->
  Forall (fun y => Rabs y <= 2 ^ 432) (weightedF s dB).
Proof.
  intros Hs Ha Hn Hd.
  destruct (ratio_bounds s dB Hs Ha Hn Hd) as (R1 & R2 & R3).
  pose proof (inv_pow2_pos 400) as P400.
  unfold weightedF. apply Forall_forall. intros y Hy.
  apply in_map_iff in Hy. destruct Hy as (v & <- & Hv).
  pose proof (normalized_bounded s) as Hb.
  rewrite Forall_forall in Hb. specialize (Hb v Hv).
  eapply Rle_trans; [apply flush_abs_le|].
  rewrite Rabs_mult, (Rabs_right (ratio s dB)) by lra.
  pose proof (Rabs_pos v). nra.
Qed.

Lemma weightedF_peak (s : list R) (dB : R) :
  s <> [] -> audible s -> sized s -> level_ok dB ->
  Rpeak (weightedF s dB) = ratio s dB.
Proof.
  intros Hs Ha Hn Hd.
  destruct (ratio_bounds s dB Hs Ha Hn Hd) as (R1 & R2 & R3).
  pose proof (inv_pow2_pos 400) as P400.
  apply Rle_antisym.
  - apply Rpeak_le_bound; [lra|]. intros y Hy.
    unfold weightedF in Hy.
    apply in_map_iff in Hy. destruct Hy as (v & <- & Hv).
    pose proof (normalized_bounded s) as Hb.
    rewrite Forall_forall in Hb. specialize (Hb v Hv).
    eapply Rle_trans; [apply flush_abs_le|].
    rewrite Rabs_mult, (Rabs_right (ratio s dB)) by lra.
    pose proof (Rabs_pos v). nra.
  - destruct (normalized_unit_sample s Hs Ha) as (x & Hin & Hx).
    assert (E : Rabs (x * ratio s dB) = ratio s dB).
    { rewrite Rabs_mult, Hx, (Rabs_right (ratio s dB)) by lra. ring. }
    assert (F : flush (x * ratio s dB) = x * ratio s dB).
    { apply (flush_exact _ 400); [rewrite E; exact R2 | lia]. }
    rewrite <- E, <- F. apply Rpeak_ge.
    unfold weightedF. apply in_map_iff. exists x. split; [reflexivity | exact Hin].
Qed.

(** On any finite signal that is not empty, at a level in range,
    [_norm_n_weight] returns. *)
Lemma norm_n_weight_returns (x : signal) (dB : R) :
  x <> [] -> forallb isfinite x = true -> level_ok dB ->
  exists y, _norm_n_weight x dB = Ok y /\ length y = length x.
Proof.
  intros Hx Hf Hd. unfold _norm_n_weight, librosa.normalize.
  rewrite Hf. cbn [negb].
  destruct x as [|a x]; [congruence|].
  cbn [map np.max bind]. cbv zeta.
  rewrite (float_pow_ok dB Hd). cbn [bind].
  eexists. split; [reflexivity|].
  unfold np.mul_scalar, np.div_scalar. rewrite !length_map. reflexivity.
Qed.

(** *** Signals within the dynamic range: no underflow *)

Lemma normalized_exact (s : list R) :
  audible s -> within_range s ->
  normalized s = map (fun v => v * / Rpeak s) s.
Proof.
  intros Ha Hw. unfold normalized. rewrite (divisor_audible s Ha).
  apply map_ext_in. intros v Hv.
  unfold within_range in Hw. rewrite Forall_forall in Hw.
  pose proof tiny_pos as Ht. unfold audible in Ha.
  destruct (Hw v Hv) as [-> | H].
  - unfold Rdiv. rewrite Rmult_0_l. apply flush_zero.
  - apply (flush_exact _ 500); [|lia].
    rewrite Rabs_quotient by lra. rewrite <- dynamic_eq.
    apply (Rmult_le_reg_r (Rpeak s)); [lra|].
    unfold Rdiv. rewrite Rmult_assoc, Rinv_l, Rmult_1_r by lra. exact H.
Qed.

Lemma normalized_grid (s : list R) :
  audible s -> within_range s ->
  Forall (fun x => x = 0 \/ / 2 ^ 500 <= Rabs x) (normalized s).
Proof.
  intros Ha Hw. rewrite (normalized_exact s Ha Hw).
  unfold within_range in Hw. rewrite Forall_forall in Hw.
  pose proof tiny_pos as Ht. unfold audible in Ha.
  apply Forall_forall. intros x Hx.
  apply in_map_iff in Hx. destruct Hx as (v & <- & Hv).
  destruct (Hw v Hv) as [-> | H].
  - left. ring.
  - right. fold (v / Rpeak s). rewrite Rabs_quotient by lra.
    rewrite <- dynamic_eq.
    apply (Rmult_le_reg_r (Rpeak s)); [lra|].
    unfold Rdiv. rewrite Rmult_assoc, Rinv_l, Rmult_1_r by lra. exact H.
Qed.

Lemma dot_self_exact (x : list R) :
  Forall (fun v => v = 0 \/ / 2 ^ 500 <= Rabs v) x ->
  dot_self x = sumsq x.
Proof.
  induction 1 as [|v x Hv Hx IH]; simpl; [reflexivity|].
  rewrite IH. f_equal.
  destruct Hv as [-> | H].
  - rewrite Rmult_0_l. apply flush_zero.
  - apply (flush_exact _ 1000); [|lia].
    rewrite Rabs_mult.
    change 1000%nat with (500 + 500)%nat. rewrite <- inv_pow2_mult.
    pose proof (inv_pow2_pos 500).
    apply Rmult_le_compat; lra.
Qed.

Lemma ratio_exact (s : list R) (dB : R) :
  s <> [] -> audible s -> within_range s ->
  ratio s dB = gain s dB * Rpeak s.
Proof.
  intros Hs Ha Hw. unfold ratio, rms_normalized, gain.
  rewrite (dot_self_exact _ (normalized_grid s Ha Hw)).
  rewrite (normalized_exact s Ha Hw).
  pose proof tiny_pos as Ht. unfold audible in Ha.
  rewrite sqrt_sumsq_scale by (left; apply Rinv_0_lt_compat; lra).
  pose proof (sqrt_len_pos s Hs) as L0.
  assert (Hq : 0 < sqrt (sumsq s))
    by (apply sqrt_lt_R0, sumsq_pos, audible_not_silent; exact Ha).
  field. repeat split; lra.
Qed.

Lemma weightedF_exact (s : list R) (dB : R) :
  s <> [] -> audible s -> within_range s -> sized s -> level_ok dB ->
  weightedF s dB = weighted s dB.
Proof.
  intros Hs Ha Hw Hn Hd.
  destruct (ratio_bounds s dB Hs Ha Hn Hd) as (R1 & R2 & R3).
  pose proof (inv_pow2_pos 400) as P400.
  pose proof (normalized_grid s Ha Hw) as Hg.
  pose proof (ratio_exact s dB Hs Ha Hw) as Er.
  unfold weightedF. rewrite (normalized_exact s Ha Hw) in Hg |- *.
  unfold weighted. rewrite map_map.
  pose proof tiny_pos as Ht. unfold audible in Ha.
  rewrite Forall_forall in Hg.
  apply map_ext_in. intros v Hv.
  assert (Hx : In (v * / Rpeak s) (map (fun v => v * / Rpeak s) s))
    by (apply in_map_iff; exists v; split; [reflexivity | exact Hv]).
  assert (Ev : v * / Rpeak s * ratio s dB = v * gain s dB)
    by (rewrite Er; field; lra).
  destruct (Hg _ Hx) as [Z | G].
  - rewrite Z, Rmult_0_l, flush_zero.
    assert (v = 0).
    { apply Rmult_integral in Z. destruct Z as [Z|Z]; [exact Z|].
      exfalso. apply (Rinv_neq_0_compat (Rpeak s)); [lra | exact Z]. }
    subst v. ring.
  - rewrite <- Ev. apply (flush_exact _ 900); [|lia].
    rewrite Rabs_mult, (Rabs_right (ratio s dB)) by lra.
    change 900%nat with (500 + 400)%nat. rewrite <- inv_pow2_mult.
    pose proof (inv_pow2_pos 500).
    apply Rmult_le_compat; lra.
Qed.

(** On a signal within the dynamic range, at a level in range,
    [_norm_n_weight] is exact. *)
Lemma norm_n_weight_Fin (s : list R) (dB : R) :
  s <> [] -> audible s -> within_range s -> sized s -> level_ok dB ->
  _norm_n_weight (map Fin s) dB = Ok (map Fin (weighted s dB)).
Proof.
  intros Hs Ha Hw Hn Hd.
  rewrite (norm_n_weight_audible s dB Hs Ha Hn Hd).
  rewrite (weightedF_exact s dB Hs Ha Hw Hn Hd). reflexivity.
Qed.

Lemma weighted_length (s : list R) (dB : R) :
  length (weighted s dB) = length s.
Proof. unfold weighted. apply length_map. Qed.

Lemma gain_pos (s : list R) (dB : R) :
  s <> [] -> ~ silent s -> 0 < gain s dB.
Proof.
  intros Hs Hn. unfold gain.
  apply Rdiv_lt_0_compat.
  - apply Rmult_lt_0_compat; [apply target_pos | apply sqrt_len_pos, Hs].
  - apply sqrt_lt_R0, sumsq_pos, Hn.
Qed.

Lemma weighted_as_gain (s : list R) (dB : R) :
  weighted s dB = map (Rmult (gain s dB)) s.
Proof.
  unfold weighted. apply map_ext. intros v. ring.
Qed.

Lemma weighted_nonempty (s : list R) (dB : R) : s <> [] -> weighted s dB <> [].
Proof.
  unfold weighted. destruct s; [congruence | simpl; congruence].
Qed.

Lemma weighted_sqrt_sumsq (s : list R) (dB : R) :
  s <> [] -> ~ silent s ->
  sqrt (sumsq (weighted s dB))
  = Rpower 10 (dB / 20) * sqrt (INR (length s)).
Proof.
  intros Hs Hn.
  pose proof (gain_pos s dB Hs Hn) as Hg.
  assert (Hq : 0 < sqrt (sumsq s)) by (apply sqrt_lt_R0, sumsq_pos, Hn).
  unfold weighted. rewrite sqrt_sumsq_scale by lra.
  unfold gain. field. lra.
Qed.

Lemma weighted_rms (s : list R) (dB : R) :
  s <> [] -> ~ silent s -> Rrms (weighted s dB) = Rpower 10 (dB / 20).
Proof.
  intros Hs Hn. unfold Rrms.
  rewrite weighted_sqrt_sumsq, weighted_length by assumption.
  pose proof (sqrt_len_pos s Hs). field. lra.
Qed.

Lemma weighted_scale (s : list R) (dB c : R) :
  0 < c -> s <> [] -> ~ silent s ->
  weighted (map (Rmult c) s) dB = weighted s dB.
Proof.
  intros Hc Hs Hn.
  assert (Hq : 0 < sqrt (sumsq s)) by (apply sqrt_lt_R0, sumsq_pos, Hn).
  assert (Hm : map (Rmult c) s = map (fun v => v * c) s)
    by (apply map_ext; intros v; ring).
  unfold weighted. rewrite map_map. apply map_ext. intros v.
  unfold gain. rewrite Hm, sqrt_sumsq_scale, length_map by lra.
  field. split; lra.
Qed.

Lemma weighted_peak_ge (s : list R) (dB : R) :
  s <> [] -> ~ silent s -> Rpower 10 (dB / 20) <= Rpeak (weighted s dB).
Proof.
  intros Hs Hn.
  set (w := weighted s dB).
  pose proof (weighted_sqrt_sumsq s dB Hs Hn) as Hr. fold w in Hr.
  pose proof (sqrt_len_pos s Hs) as Hl.
  pose proof (Rpeak_nonneg w) as Hp.
  assert (Hle : sqrt (sumsq w) <= sqrt (INR (length s)) * Rpeak w).
  { rewrite <- (sqrt_square (Rpeak w)) by exact Hp.
    rewrite <- sqrt_mult_alt by apply pos_INR.
    apply sqrt_le_1_alt.
    replace (length s) with (length w) by apply weighted_length.
    apply sumsq_le_peak. }
  rewrite Hr in Hle.
  apply (Rmult_le_reg_l (sqrt (INR (length s)))); [exact Hl|]. lra.
Qed.

Lemma Rpeak_scale_l (s : list R) (c : R) :
  0 <= c -> Rpeak (map (Rmult c) s) = c * Rpeak s.
Proof.
  intros Hc.
  replace (map (Rmult c) s) with (map (fun v => v * c) s)
    by (apply map_ext; intros v; ring).
  rewrite Rpeak_scale by exact Hc. ring.
Qed.

Lemma silent_scale (s : list R) (c : R) :
  c <> 0 -> silent (map (Rmult c) s) -> silent s.
Proof.
  intros Hc. unfold silent. rewrite Forall_map.
  apply Forall_impl. intros v Hv.
  apply Rmult_integral in Hv. destruct Hv; [contradiction | assumption].
Qed.

Lemma within_range_scale (s : list R) (c : R) :
  0 < c -> within_range s -> within_range (map (Rmult c) s).
Proof.
  intros Hc Hw. unfold within_range in *.
  rewrite Rpeak_scale_l by lra. rewrite Forall_map.
  eapply Forall_impl; [|exact Hw]. simpl. intros v [-> | H].
  - left. ring.
  - right. rewrite Rabs_mult, (Rabs_right c) by lra.
    pose proof dynamic_pos. nra.
Qed.

Lemma sized_map {A B : Type} (f : A -> B) (s : list A) :
  sized s -> sized (map f s).
Proof. unfold sized. rewrite length_map. tauto. Qed.

(** *** [_norm_n_weight] on faint signals: a peak below [tiny] *)

Lemma sum_squares_faint (x : list R) :
  Forall (fun v => Rabs v < librosa.tiny) x ->
  np.sum (map (fun v => fmul v v) (map Fin x)) = Fin 0.
Proof.
  unfold np.sum. induction 1 as [|v x Hv Hx IH]; [reflexivity|].
  simpl map. simpl fold_right. rewrite IH.
  pose proof tiny_le_1 as T1. pose proof tiny_square as T2.
  pose proof (Rabs_pos v) as Pv.
  assert (Hs : Rabs (v * v) < min_float / 2).
  { rewrite Rabs_mult.
    apply Rle_lt_trans with (librosa.tiny * librosa.tiny); [|exact T2].
    apply Rmult_le_compat; lra. }
  assert (Hu : Rabs (v * v) <= 1).
  { rewrite Rabs_mult. nra. }
  rewrite (rnd_unit _ Hu), (flush_small _ Hs). simpl fadd.
  rewrite Rplus_0_l. apply rnd_zero.
Qed.

Lemma normalized_faint (s : list R) :
  Rpeak s < librosa.tiny ->
  normalized s = map (fun v => flush (v / 1)) s
  /\ Forall (fun x => Rabs x < librosa.tiny) (normalized s).
Proof.
  intros Hf. unfold normalized. rewrite (divisor_faint s Hf).
  split; [reflexivity|].
  apply Forall_forall. intros x Hx.
  apply in_map_iff in Hx. destruct Hx as (v & <- & Hv).
  pose proof (Rpeak_ge s v Hv).
  eapply Rle_lt_trans; [apply flush_abs_le|].
  unfold Rdiv. rewrite Rinv_1, Rmult_1_r. lra.
Qed.

Lemma norm_n_weight_faint (s : list R) (dB : R) :
  s <> [] -> Rpeak s < librosa.tiny -> level_ok dB ->
  _norm_n_weight (map Fin s) dB
  = Ok (map (fun v => signed_inf (flush (v / 1))) s).
Proof.
  intros Hs Hf Hd. unfold _norm_n_weight.
  rewrite normalize_Fin by exact Hs. cbn [bind]. cbv zeta.
  destruct (normalized_faint s Hf) as [En Hb].
  unfold np.linalg_norm. rewrite (sum_squares_faint _ Hb).
  rewrite fsqrt_Fin by lra. rewrite sqrt_0.
  unfold np.sqrt_int. rewrite fsqrt_Fin by apply pos_INR.
  rewrite length_map, normalized_length.
  pose proof (sqrt_len_pos s Hs) as L0.
  rewrite fdiv_rnd by lra.
  replace (0 / sqrt (INR (length s))) with 0 by (unfold Rdiv; ring).
  rewrite rnd_zero.
  rewrite (float_pow_ok dB Hd). cbn [bind].
  assert (Hr : fdiv (Fin (Rpower 10 (dB / 20))) (Fin 0) = PInf).
  { simpl. destruct (Req_dec_T 0 0); [|congruence].
    apply signed_inf_pos, target_pos. }
  rewrite Hr. f_equal.
  unfold np.mul_scalar. rewrite En, !map_map. reflexivity.
Qed.

Lemma norm_n_weight_silent (s : list R) (dB : R) :
  s <> [] -> silent s -> level_ok dB ->
  _norm_n_weight (map Fin s) dB = Ok (repeat NaN (length s)).
Proof.
  intros Hs Hz Hd.
  assert (Hf : Rpeak s < librosa.tiny).
  { apply Rpeak_silent in Hz. rewrite Hz. apply tiny_pos. }
  rewrite (norm_n_weight_faint s dB Hs Hf Hd). f_equal.
  clear Hs Hf. induction Hz as [|v s Hv Hz IH]; simpl; [reflexivity|].
  subst v. f_equal; [|exact IH].
  unfold Rdiv. rewrite Rmult_0_l, flush_zero. apply signed_inf_zero.
Qed.

(** *** Lengths and errors, for arbitrary signals *)

Lemma normalize_length (S y : signal) :
  librosa.normalize S = Ok y -> length y = length S.
Proof.
  unfold librosa.normalize.
  destruct (negb (forallb isfinite S)); [discriminate|].
  destruct (np.max (map fabs S)) as [m|e]; simpl; [|discriminate].
  intros H. injection H as <-. apply length_map.
Qed.

Lemma norm_n_weight_length (x y : signal) (dB : R) :
  _norm_n_weight x dB = Ok y -> length y = length x.
Proof.
  unfold _norm_n_weight.
  destruct (librosa.normalize x) as [x'|e] eqn:E; simpl; [|discriminate].
  destruct (float_pow 10 (dB / 20)) as [t|e]; simpl; [|discriminate].
  intros H. injection H as <-. unfold np.mul_scalar.
  rewrite length_map. apply normalize_length, E.
Qed.

Lemma zip_add_length (a b : signal) :
  length a = length b -> length (np.zip_add a b) = length a.
Proof.
  revert b. induction a as [|u a IH]; intros [|v b]; simpl; try congruence.
  intros H. f_equal. apply IH. congruence.
Qed.

Lemma add_length (a b y : signal) :
  length a = length b -> np.add a b = Ok y -> length y = length a.
Proof.
  intros Hl. unfold np.add.
  destruct (Nat.eqb_spec (length a) (length b)) as [_|N]; [|contradiction].
  intros H. injection H as <-. apply zip_add_length, Hl.
Qed.

Lemma add_shapes_refused (a b : signal) :
  length a <> length b -> (2 <= length a)%nat -> (2 <= length b)%nat ->
  np.add a b = Raise (ValueError "operands could not be broadcast together").
Proof.
  intros Hne Ha Hb. unfold np.add.
  destruct (Nat.eqb_spec (length a) (length b)) as [E|_]; [contradiction|].
  destruct a as [|u [|u' a]]; simpl in Ha; try lia.
  destruct b as [|v [|v' b]]; simpl in Hb; try lia.
  reflexivity.
Qed.

Lemma mix_length (x0 x1 y : signal) (snr : R) :
  length x0 = length x1 -> mix x0 x1 snr = Ok y -> length y = length x0.
Proof.
  intros Hl. unfold mix.
  destruct (_norm_n_weight x0 0) as [w0|e] eqn:E0; simpl; [|discriminate].
  destruct (_norm_n_weight x1 (- snr)) as [w1|e] eqn:E1; simpl; [|discriminate].
  apply norm_n_weight_length in E0, E1.
  destruct (np.add w0 w1) as [sm|e] eqn:Ea; simpl; [|discriminate].
  apply add_length in Ea; [|congruence].
  destruct (librosa.normalize sm) as [z|e] eqn:En; simpl; [|discriminate].
  apply normalize_length in En.
  intros H. injection H as <-. congruence.
Qed.

(** The library calls inside [mix] never raise a [ValueError] without a
    message. *)
Lemma normalize_error (S : signal) :
  librosa.normalize S <> Raise (ValueError "").
Proof.
  unfold librosa.normalize.
  destruct (negb (forallb isfinite S)); [discriminate|].
  destruct (map fabs S); simpl; discriminate.
Qed.

Lemma norm_n_weight_error (x : signal) (dB : R) :
  _norm_n_weight x dB <> Raise (ValueError "").
Proof.
  unfold _norm_n_weight.
  destruct (librosa.normalize x) as [x'|e] eqn:E; simpl.
  - unfold float_pow.
    destruct (Rlt_dec max_float (Rpower 10 (dB / 20))); simpl; discriminate.
  - intros H. injection H as ->. exact (normalize_error x E).
Qed.

Lemma add_error (a b : signal) : np.add a b <> Raise (ValueError "").
Proof.
  unfold np.add. destruct (Nat.eqb (length a) (length b)); [discriminate|].
  destruct a as [|u [|u' a]]; destruct b as [|v [|v' b]]; discriminate.
Qed.

Lemma mix_error (x0 x1 : signal) (snr : R) :
  mix x0 x1 snr <> Raise (ValueError "").
Proof.
  unfold mix.
  destruct (_norm_n_weight x0 0) as [w0|e] eqn:E0; simpl;
    [|intros H; injection H as ->; exact (norm_n_weight_error _ _ E0)].
  destruct (_norm_n_weight x1 (- snr)) as [w1|e] eqn:E1; simpl;
    [|intros H; injection H as ->; exact (norm_n_weight_error _ _ E1)].
  destruct (np.add w0 w1) as [sm|e] eqn:Ea; simpl;
    [|intros H; injection H as ->; exact (add_error _ _ Ea)].
  destruct (librosa.normalize sm) as [z|e] eqn:En; simpl;
    [discriminate|].
  intros H. injection H as ->. exact (normalize_error _ En).
Qed.

(** *** Slices *)

Lemma slice_length {A : Type} (a : list A) (lo n : nat) :
  (lo + n <= length a)%nat -> length (np.slice a lo (lo + n)) = n.
Proof.
  intros H. unfold np.slice.
  rewrite length_firstn, length_skipn. lia.
Qed.

Lemma slice_contiguous {A : Type} (a : list A) (lo hi : nat) :
  (lo <= length a)%nat ->
  a = firstn lo a ++ np.slice a lo hi ++ skipn (hi - lo) (skipn lo a)
  /\ length (firstn lo a) = lo.
Proof.
  intros H. unfold np.slice. split.
  - rewrite firstn_skipn. symmetry. apply firstn_skipn.
  - rewrite length_firstn. lia.
Qed.

Lemma repeated_length (self : SoundMixer.t) (x : signal) :
  length (SoundMixer.repeated self x)
  = (length (SoundMixer.other self)
     + Nat.min (length x - length (SoundMixer.other self))
               (length (SoundMixer.other self)))%nat.
Proof.
  unfold SoundMixer.repeated, np.r_, np.slice. cbv zeta.
  rewrite length_app, length_firstn. simpl skipn. lia.
Qed.

(** *** The MP3 compressor *)

Lemma bitrate_check (kbps : Z) :
  existsb (Z.eqb kbps) MP3Compressor.bitrates = true
  <-> In kbps MP3Compressor.bitrates.
Proof.
  rewrite existsb_exists. split.
  - intros (k & Hin & E). apply Z.eqb_eq in E. subst k. exact Hin.
  - intros H. exists kbps. split; [exact H | apply Z.eqb_refl].
Qed.

Lemma filter_keeps_older (f : tmpfile) (l : list tmpfile) :
  Forall (fun g => (tmp_id g < tmp_id f)%nat) l ->
  filter (fun g => negb (tmpfile_eqb f g)) l = l.
Proof.
  induction 1 as [|g l Hg Hl IH]; simpl; [reflexivity|].
  unfold tmpfile_eqb at 1.
  rewrite (proj2 (Nat.eqb_neq (tmp_id f) (tmp_id g))) by lia.
  simpl. f_equal. exact IH.
Qed.

Lemma tmpfile_eqb_refl (f : tmpfile) : tmpfile_eqb f f = true.
Proof.
  unfold tmpfile_eqb. rewrite Nat.eqb_refl, String.eqb_refl. reflexivity.
Qed.

Lemma tmpfile_eqb_other (f g : tmpfile) :
  tmp_id f <> tmp_id g -> tmpfile_eqb f g = false.
Proof.
  intros H. unfold tmpfile_eqb.
  rewrite (proj2 (Nat.eqb_neq _ _) H). reflexivity.
Qed.

Lemma unlink_present (f : tmpfile) (s : fs) :
  existsb (tmpfile_eqb f) (live s) = true ->
  os.unlink f s
  = (Ok tt, {| live := filter (fun g => negb (tmpfile_eqb f g)) (live s);
               next_id := next_id s |}).
Proof. intros H. unfold os.unlink. rewrite H. reflexivity. Qed.

(** The [finally] block removes the two files the call created. *)
Lemma finalizer_releases (n m : nat) (l : list tmpfile) :
  Forall (fun g => (tmp_id g < n)%nat) l ->
  (_ <~ os.unlink {| tmp_id := n; tmp_suffix := ".wav" |} ;;
   os.unlink {| tmp_id := S n; tmp_suffix := ".mp3" |})
    {| live := {| tmp_id := S n; tmp_suffix := ".mp3" |}
               :: {| tmp_id := n; tmp_suffix := ".wav" |} :: l;
       next_id := m |}
  = (Ok tt, {| live := l; next_id := m |}).
Proof.
  intros Hl.
  set (infile := {| tmp_id := n; tmp_suffix := ".wav" |}).
  set (outfile := {| tmp_id := S n; tmp_suffix := ".mp3" |}).
  assert (E1 : tmpfile_eqb infile outfile = false)
    by (apply tmpfile_eqb_other; simpl; lia).
  assert (Hin : filter (fun g => negb (tmpfile_eqb infile g)) l = l)
    by (apply filter_keeps_older; exact Hl).
  assert (Hout : filter (fun g => negb (tmpfile_eqb outfile g)) l = l).
  { apply filter_keeps_older. eapply Forall_impl; [|exact Hl].
    simpl. intros g Hg. lia. }
  unfold io_bind.
  rewrite unlink_present.
  - cbn [live next_id filter].
    rewrite E1, (tmpfile_eqb_refl infile), Hin. cbn [negb].
    rewrite unlink_present.
    + cbn [live next_id filter].
      rewrite (tmpfile_eqb_refl outfile), Hout. reflexivity.
    + cbn [live existsb]. rewrite (tmpfile_eqb_refl outfile). reflexivity.
  - cbn [live existsb]. rewrite E1, (tmpfile_eqb_refl infile). reflexivity.
Qed.

(** The body of the [try] statement and its [except] clause leave the
    files as they are. *)
Lemma try_body_keeps_files (E : env) (outfile : tmpfile)
    (args : list arg) (s : fs) :
  snd ((_ <~ check_call E args ;; load E outfile) s) = s.
Proof.
  unfold io_bind, check_call, load.
  destruct (ffmpeg E) as [[|rc|rc]|e]; reflexivity.
Qed.

Lemma raise_named_keeps_files {A : Type} (name msg : string) (s : fs) :
  snd (@raise_named A name msg s) = s.
Proof.
  unfold raise_named. destruct (builtins name); reflexivity.
Qed.

(** X25: once the dump is written, every way out of the encode/decode
    step (success, an error of ffmpeg, an error of the decoder, the
    [except] clause) leaves no temporary file of the call behind. *)
Lemma encode_step_releases (E : env) (sr : Z) (x : signal) (kbps : Z)
    (s : fs) :
  fresh_names s ->
  In kbps MP3Compressor.bitrates ->
  mkstemp_error E ".wav" = None ->
  mkstemp_error E ".mp3" = None ->
  forallb isfinite x = true ->
  write_error E = None ->
  live (snd (MP3Compressor.__call__ E sr x kbps s)) = live s.
Proof.
  intros Hf Hk Hw Hm Hx He.
  unfold MP3Compressor.__call__.
  rewrite (proj2 (bitrate_check kbps) Hk). cbn [negb].
  unfold io_bind at 1 2 3, tempfile.mkstemp, write_wav.
  rewrite Hw. cbn [live next_id]. rewrite Hm, Hx, He.
  cbn [negb io_ret live next_id].
  unfold io_bind at 1, try_except_finally.
  match goal with
  | |- context [(_ <~ check_call E ?args ;; load E ?o) ?st] =>
      pose proof (try_body_keeps_files E o args st) as Hb;
      destruct ((_ <~ check_call E args ;; load E o) st) as [r s1]
  end.
  simpl in Hb. subst s1.
  assert (Hfin := finalizer_releases (next_id s) (S (S (next_id s)))
                    (live s) Hf).
  destruct r as [y|e].
  - rewrite Hfin. reflexivity.
  - destruct (is_OSError e).
    + match goal with
      | |- context [@raise_named ?A ?n ?m ?st] =>
          pose proof (@raise_named_keeps_files A n m st) as Hr;
          destruct (@raise_named A n m st) as [r' s2]
      end.
      simpl in Hr. subst s2. rewrite Hfin. destruct r'; reflexivity.
    + rewrite Hfin. reflexivity.
Qed.

(** X26: when ffmpeg cannot be executed, the caller gets [NameError],
    whatever the [OSError] was, and both temporary files are removed. *)
Lemma encoder_not_started (E : env) (sr : Z) (x : signal) (kbps : Z)
    (s : fs) (e : exn) :
  fresh_names s ->
  In kbps MP3Compressor.bitrates ->
  mkstemp_error E ".wav" = None ->
  mkstemp_error E ".mp3" = None ->
  forallb isfinite x = true ->
  write_error E = None ->
  ffmpeg E = NotStarted e ->
  is_OSError e = true ->
  MP3Compressor.__call__ E sr x kbps s
  = (Raise (NameError "RunTimeError"),
     {| live := live s; next_id := S (S (next_id s)) |}).
Proof.
  intros Hf Hk Hw Hm Hx He Hp Ho.
  unfold MP3Compressor.__call__.
  rewrite (proj2 (bitrate_check kbps) Hk). cbn [negb].
  unfold io_bind at 1 2 3, tempfile.mkstemp, write_wav.
  rewrite Hw. cbn [live next_id]. rewrite Hm, Hx, He.
  cbn [negb io_ret live next_id].
  unfold io_bind at 1, try_except_finally.
  unfold io_bind at 1, check_call. rewrite Hp. unfold io_raise at 1.
  rewrite Ho.
  change (@raise_named signal "RunTimeError"
            "Failed to execute ffmpeg.Please verify that ffmpeg is installed.")
    with (@io_raise signal (NameError "RunTimeError")).
  unfold io_raise at 1.
  rewrite (finalizer_releases (next_id s) (S (S (next_id s))) (live s) Hf).
  reflexivity.
Qed.

(** *** The shape of what [mix] returns *)

Lemma normalize_nonempty (S y : signal) :
  librosa.normalize S = Ok y -> (1 <= length S)%nat.
Proof.
  unfold librosa.normalize.
  destruct (negb (forallb isfinite S)); [discriminate|].
  destruct S; simpl; [discriminate | intros _; lia].
Qed.

Lemma norm_n_weight_nonempty (x y : signal) (dB : R) :
  _norm_n_weight x dB = Ok y -> (1 <= length x)%nat.
Proof.
  unfold _norm_n_weight.
  destruct (librosa.normalize x) as [x'|e] eqn:E; simpl; [|discriminate].
  intros _. apply (normalize_nonempty x x' E).
Qed.

Lemma add_shape (a b y : signal) :
  np.add a b = Ok y ->
  length y = length a \/ (length a = 1%nat /\ length y = length b).
Proof.
  unfold np.add.
  destruct (Nat.eqb_spec (length a) (length b)) as [E|N].
  - intros H. injection H as <-. left. apply zip_add_length, E.
  - destruct a as [|u [|u' a]].
    + destruct b as [|v [|v' b]]; try discriminate.
      intros H. injection H as <-. left. reflexivity.
    + intros H. injection H as <-. right. split; [reflexivity|].
      apply length_map.
    + destruct b as [|v [|v' b]]; try discriminate.
      intros H. injection H as <-. left.
      apply (length_map (fun w => fadd w v) (u :: u' :: a)).
Qed.

(** The shape of what [mix] returns, for arbitrary signals. *)
Lemma mix_shape (x0 x1 y : signal) (snr : R) :
  mix x0 x1 snr = Ok y ->
  (1 <= length x0)%nat /\ (1 <= length x1)%nat
  /\ (length y = length x0
      \/ (length x0 = 1%nat /\ length y = length x1)).
Proof.
  unfold mix.
  destruct (_norm_n_weight x0 0) as [w0|e] eqn:E0; simpl; [|discriminate].
  destruct (_norm_n_weight x1 (- snr)) as [w1|e] eqn:E1; simpl;
    [|discriminate].
  pose proof (norm_n_weight_nonempty _ _ _ E0) as N0.
  pose proof (norm_n_weight_nonempty _ _ _ E1) as N1.
  apply norm_n_weight_length in E0, E1.
  destruct (np.add w0 w1) as [sm|e] eqn:Ea; simpl; [|discriminate].
  apply add_shape in Ea.
  destruct (librosa.normalize sm) as [z|e] eqn:En; simpl; [|discriminate].
  apply normalize_length in En.
  intros H. injection H as <-.
  split; [exact N0 | split; [exact N1|]].
  destruct Ea as [Ea|[Ea Eb]]; [left | right]; [|split]; congruence.
Qed.


(** *** [mix] on audible signals *)

Lemma Rzip_add_length (a b : list R) :
  length a = length b -> length (Rzip_add a b) = length a.
Proof.
  intros H. unfold Rzip_add. rewrite length_map, length_combine. lia.
Qed.

Lemma summed_length (a b : list R) :
  length a = length b -> length (summed a b) = length a.
Proof.
  intros H. unfold summed. rewrite length_map. apply Rzip_add_length, H.
Qed.


Lemma double_pow2 (k : nat) : 2 ^ k + 2 ^ k = 2 ^ S k.
Proof. simpl. ring. Qed.

Lemma zip_add_summed (a b : list R) :
  Forall (fun v => Rabs v <= 2 ^ 432) a ->
  Forall (fun v => Rabs v <= 2 ^ 432) b ->
  np.zip_add (map Fin a) (map Fin b) = map Fin (summed a b).
Proof.
  intros Ha. revert b.
  induction Ha as [|u a Hu Ha IH]; intros [|v b] Hb; try reflexivity.
  inversion Hb as [|? ? Hv Hb']; subst.
  simpl. rewrite (IH b Hb'). f_equal.
  apply (rnd_bounded _ 433); [|lia].
  rewrite <- double_pow2.
  eapply Rle_trans; [apply Rabs_triang | lra].
Qed.

Lemma add_summed (a b : list R) :
  length a = length b ->
  Forall (fun v => Rabs v <= 2 ^ 432) a ->
  Forall (fun v => Rabs v <= 2 ^ 432) b ->
  np.add (map Fin a) (map Fin b) = Ok (map Fin (summed a b)).
Proof.
  intros H Ha Hb. unfold np.add. rewrite !length_map, H, Nat.eqb_refl.
  rewrite zip_add_summed by assumption. reflexivity.
Qed.

Lemma sized_same {A B : Type} (p : list A) (q : list B) :
  length p = length q -> sized p -> sized q.
Proof. unfold sized. intros ->. tauto. Qed.


Lemma mix_audible (p q : list R) (snr : R) :
  p <> [] -> length p = length q -> audible p -> audible q ->
  sized p -> level_ok snr ->
  mix (map Fin p) (map Fin q) snr = Ok (map Fin (mixed p q snr)).
Proof.
  intros Hp Hl Ap Aq Hn Hd.
  assert (Hq : q <> []) by (destruct p, q; simpl in *; congruence).
  pose proof (sized_same p q Hl Hn) as Hnq.
  pose proof (level_ok_opp snr Hd) as Hd'.
  unfold mix.
  rewrite (norm_n_weight_audible p 0 Hp Ap Hn level_ok_0). cbn [bind].
  rewrite (norm_n_weight_audible q (- snr) Hq Aq Hnq Hd'). cbn [bind].
  rewrite add_summed;
    [| rewrite !weightedF_length; exact Hl
     | apply weightedF_bounded; auto using level_ok_0
     | apply weightedF_bounded; auto ].
  cbn [bind]. rewrite normalize_Fin.
  - reflexivity.
  - intros E. apply (f_equal (@length R)) in E.
    rewrite summed_length in E by (rewrite !weightedF_length; exact Hl).
    rewrite weightedF_length in E. destruct p; simpl in E; congruence.
Qed.


Lemma normalized_within_unit (s : list R) :
  Forall (fun v => -1 <= v <= 1) (normalized s).
Proof.
  pose proof (normalized_bounded s) as H.
  eapply Forall_impl; [|exact H]. simpl. intros v Hv.
  unfold Rabs in Hv. destruct (Rcase_abs v); lra.
Qed.

(** *** Plain signals *)

Lemma pow2_10 : 2 ^ 10 = 1024.
Proof. simpl. lra. Qed.

Lemma plain_peak (s : list R) :
  plain s -> ~ silent s -> 1 <= Rpeak s <= 1024.
Proof.
  intros [Hp _] Hn. rewrite Forall_forall in Hp.
  assert (Hs : s <> []) by (intros ->; apply Hn; constructor).
  split.
  - destruct (Rpeak_attained s Hs) as (v & Hin & Hv).
    pose proof (Rpeak_pos s Hn) as H0.
    destruct (Hp v Hin) as [-> | H]; [rewrite Rabs_R0 in Hv; lra | lra].
  - apply Rpeak_le_bound; [lra|]. intros v Hv.
    destruct (Hp v Hv) as [-> | H]; [rewrite Rabs_R0; lra | lra].
Qed.

Lemma plain_audible (s : list R) : plain s -> ~ silent s -> audible s.
Proof.
  intros Hp Hn. unfold audible.
  pose proof (plain_peak s Hp Hn). pose proof tiny_le_1. lra.
Qed.

Lemma plain_within_range (s : list R) :
  plain s -> ~ silent s -> within_range s.
Proof.
  intros Hp Hn. pose proof (plain_peak s Hp Hn) as [P1 P2].
  destruct Hp as [Hp _]. unfold within_range.
  eapply Forall_impl; [|exact Hp]. simpl. intros v [-> | H].
  - left. reflexivity.
  - right. rewrite dynamic_eq.
    pose proof (inv_pow2_le 10 500) as H1.
    pose proof (inv_pow2_pos 500) as H2.
    pose proof (pow2_pos 10) as H3.
    assert (H4 : / 2 ^ 500 <= / 2 ^ 10) by (apply H1; lia).
    assert (H5 : / 2 ^ 10 * 2 ^ 10 = 1) by (apply Rinv_l; lra).
    rewrite pow2_10 in H5. nra.
Qed.

Lemma plain_sized (s : list R) : plain s -> sized s.
Proof.
  intros [_ Hl]. unfold sized.
  apply le_INR in Hl.
  assert (E : INR 1024 = 1024) by (rewrite INR_IZR_INZ; reflexivity).
  rewrite E in Hl. rewrite <- pow2_10 in Hl.
  pose proof (pow2_le 10 63). assert (2 ^ 10 <= 2 ^ 63) by (apply H; lia).
  lra.
Qed.

Lemma plain_representable (s : list R) : plain s -> Forall representable s.
Proof.
  intros [Hp _]. eapply Forall_impl; [|exact Hp]. simpl.
  intros v [-> | H]; [left; reflexivity|]. right.
  pose proof (min_float_le 0) as H1. simpl in H1.
  assert (min_float <= / 1) by (apply H1; lia). rewrite Rinv_1 in H0.
  pose proof (max_float_ge 10) as H2. rewrite pow2_10 in H2.
  assert (1024 <= max_float) by (apply H2; lia). lra.
Qed.

(** Discharge [plain] and [~ silent] on a literal list. *)
Ltac plain_samples :=
  match goal with
  | |- Forall _ [] => constructor
  | |- Forall _ (_ :: _) =>
      constructor;
      [ first [ left; lra
              | right; unfold Rabs; destruct (Rcase_abs _); lra ]
      | plain_samples ]
  end.

Ltac plain_literal := split; [plain_samples | simpl; lia].

Ltac not_silent_literal :=
  let H := fresh "H" in
  intros H; unfold silent in H;
  repeat match goal with
         | H : Forall _ (_ :: _) |- _ => inversion H; clear H; subst
         end;
  lra.

(** *** Silence and broadcasting in [mix] *)

Lemma zip_add_nan (a : signal) :
  np.zip_add a (repeat NaN (length a)) = repeat NaN (length a).
Proof.
  induction a as [|u a IH]; simpl; [reflexivity|].
  rewrite IH. destruct u; reflexivity.
Qed.

Lemma zip_add_nan_l (b : signal) :
  np.zip_add (repeat NaN (length b)) b = repeat NaN (length b).
Proof.
  induction b as [|v b IH]; simpl; [reflexivity|]. rewrite IH. reflexivity.
Qed.

Lemma normalize_nan (n : nat) :
  (1 <= n)%nat ->
  librosa.normalize (repeat NaN n)
  = Raise (ParameterError "Input must be finite").
Proof.
  intros H. destruct n; [lia|]. reflexivity.
Qed.

Lemma fadd_comm (a b : f64) : fadd a b = fadd b a.
Proof.
  destruct a, b; simpl; try reflexivity. rewrite Rplus_comm. reflexivity.
Qed.

Lemma zip_add_comm (a b : signal) : np.zip_add a b = np.zip_add b a.
Proof.
  revert b. induction a as [|u a IH]; intros [|v b]; simpl;
    try reflexivity.
  rewrite IH, fadd_comm. reflexivity.
Qed.

Lemma norm_n_weight_errors (x : signal) (dB : R) (e : exn) :
  level_ok dB ->
  _norm_n_weight x dB = Raise e ->
  e = ParameterError "Input must be finite" \/ e = ValueError zero_size.
Proof.
  intros Hd. unfold _norm_n_weight, librosa.normalize.
  destruct (negb (forallb isfinite x)).
  - cbn [bind]. intros H. injection H as <-. left. reflexivity.
  - destruct (map fabs x) as [|m l]; simpl.
    + intros H. injection H as <-. right. reflexivity.
    + rewrite (float_pow_ok dB Hd). simpl. discriminate.
Qed.

Lemma mix_unequal_lengths (x0 x1 : signal) (snr : R) :
  (2 <= length x0)%nat -> (2 <= length x1)%nat ->
  length x0 <> length x1 ->
  forallb isfinite x0 = true -> forallb isfinite x1 = true ->
  level_ok snr ->
  mix x0 x1 snr
  = Raise (ValueError "operands could not be broadcast together").
Proof.
  intros H0 H1 Hne F0 F1 Hd. unfold mix.
  destruct (norm_n_weight_returns x0 0) as (w0 & E0 & L0);
    [intros ->; simpl in H0; lia | exact F0 | apply level_ok_0 |].
  destruct (norm_n_weight_returns x1 (- snr)) as (w1 & E1 & L1);
    [intros ->; simpl in H1; lia | exact F1 | apply level_ok_opp, Hd |].
  rewrite E0, E1. cbn [bind].
  rewrite add_shapes_refused; [reflexivity | | |]; congruence || lia.
Qed.

(** Whatever the samples and the SNR, [mix] does not return on signals
    of different lengths of at least two samples. *)
Lemma mix_unequal_never_returns (x0 x1 y : signal) (snr : R) :
  (2 <= length x0)%nat -> (2 <= length x1)%nat ->
  length x0 <> length x1 ->
  mix x0 x1 snr <> Ok y.
Proof.
  intros H0 H1 Hne. unfold mix.
  destruct (_norm_n_weight x0 0) as [w0|e] eqn:E0; cbn [bind];
    [|discriminate].
  destruct (_norm_n_weight x1 (- snr)) as [w1|e] eqn:E1; cbn [bind];
    [|discriminate].
  apply norm_n_weight_length in E0, E1.
  rewrite add_shapes_refused; [discriminate | | |]; congruence || lia.
Qed.

(** ** The claims *)




(** C3, as stated, fails: on the all-zero signal of one sample
    [_norm_n_weight] raises nothing, it returns one [nan]. *)
Lemma norm_n_weight_zero_returns_nan :
  _norm_n_weight [Fin 0] 0 = Ok [NaN]
  /\ forall e, _norm_n_weight [Fin 0] 0 <> Raise e.
Proof.
  assert (H : _norm_n_weight [Fin 0] 0 = Ok [NaN]).
  { apply (norm_n_weight_silent [0] 0);
      [discriminate | repeat constructor | apply level_ok_0]. }
  split; [exact H|]. intros e. rewrite H. discriminate.
Qed.

Lemma signed_inf_nan (r : R) : signed_inf r = NaN -> r = 0.
Proof.
  unfold signed_inf. destruct (Rlt_dec 0 r); [discriminate|].
  destruct (Rlt_dec r 0); [discriminate|]. intros _. lra.
Qed.

Lemma flush_representable (v : R) : representable v -> flush (v / 1) = v.
Proof.
  assert (E : v / 1 = v) by field. rewrite E.
  intros [-> | [H _]]; [apply flush_zero|].
  apply (flush_exact _ 1074); [|lia]. rewrite <- min_float_eq. exact H.
Qed.

Lemma map_all_nan {A : Type} (f : A -> f64) (s : list A) :
  map f s = repeat NaN (length s) -> Forall (fun v => f v = NaN) s.
Proof.
  induction s as [|v s IH]; simpl; intros H; constructor.
  - injection H as H _. exact H.
  - apply IH. injection H as _ H. exact H.
Qed.

(** C3, amended: [_norm_n_weight] raises no error on an all-zero
    signal.  For every float64 signal of at least one sample and every
    level between -2000 and 2000 dB it returns a signal of the same
    length, and that signal is all [nan] if and only if the input is
    all-zero. *)
Theorem norm_n_weight_silence_gives_nan (s : list R) (dB : R) :
  (1 <= length s)%nat ->
  sized s ->
  Forall representable s ->
  level_ok dB ->
  exists y, _norm_n_weight (map Fin s) dB = Ok y
            /\ length y = length s
            /\ (silent s <-> y = repeat NaN (length s)).
Proof.
  intros Hl Hn Hr Hd. pose proof (nonempty_length s Hl) as Hs.
  destruct (Rlt_dec (Rpeak s) librosa.tiny) as [Hf|Ha].
  - exists (map (fun v => signed_inf (flush (v / 1))) s).
    split; [apply norm_n_weight_faint; assumption|].
    split; [apply length_map|]. split.
    + intros Hz.
      pose proof (norm_n_weight_silent s dB Hs Hz Hd) as E.
      rewrite (norm_n_weight_faint s dB Hs Hf Hd) in E.
      injection E as E. exact E.
    + intros E. apply map_all_nan in E. unfold silent.
      rewrite Forall_forall in *. intros v Hv.
      specialize (E v Hv). specialize (Hr v Hv). simpl in E.
      apply signed_inf_nan in E.
      rewrite (flush_representable v Hr) in E. exact E.
  - assert (Ha' : audible s) by (unfold audible; lra).
    exists (map Fin (weightedF s dB)).
    split; [apply norm_n_weight_audible; assumption|].
    split; [rewrite length_map; apply weightedF_length|]. split.
    + intros Hz. exfalso. exact (audible_not_silent s Ha' Hz).
    + intros E. exfalso.
      unfold weightedF, normalized in E.
      destruct s as [|v s]; [congruence|]. simpl in E. discriminate E.
Qed.

Lemma norm_n_weight_silence_gives_nan_witness :
  (1 <= length [0; 0]%R)%nat
  /\ sized [0; 0]
  /\ Forall representable [0; 0]
  /\ level_ok (-30)
  /\ exists y, _norm_n_weight (map Fin [0; 0]) (-30) = Ok y
               /\ length y = length [0; 0]%R
               /\ (silent [0; 0] <-> y = repeat NaN (length [0; 0]%R)).
Proof.
  assert (Hp : plain [0; 0]) by plain_literal.
  assert (H1 : (1 <= length [0; 0]%R)%nat) by (simpl; lia).
  assert (H2 : sized [0; 0]) by (apply plain_sized, Hp).
  assert (H3 : Forall representable [0; 0])
    by (apply plain_representable, Hp).
  assert (H4 : level_ok (-30)) by (unfold level_ok; lra).
  repeat (split; [assumption|]).
  exact (norm_n_weight_silence_gives_nan [0; 0] (-30) H1 H2 H3 H4).
Defined.




(** C2, evaluated where the code departs from it: with a primary of ten
    samples and the secondary [[1, 2, 3]], line 114 of transform.py builds
    [[1, 2, 3, 1, 2, 3]] (six samples, not ten: the slice
    [self.other[:7]] has only three), line 115 passes the unpadded
    [self.other] to [mix], and the call never returns, whatever the SNR
    and the random source: at every SNR between -2000 and 2000 dB numpy
    refuses to add ten samples to three. *)
Theorem short_secondary_not_padded (rs : np.RandomState) (snr : R) :
  let x := map Fin (repeat 1 10) in
  SoundMixer.repeated three_samples x = map Fin [1; 2; 3; 1; 2; 3]
  /\ length (SoundMixer.repeated three_samples x) = 6%nat
  /\ SoundMixer.__call__ three_samples rs x snr
     = mix x (SoundMixer.other three_samples) snr
  /\ (forall y, SoundMixer.__call__ three_samples rs x snr <> Ok y)
  /\ (level_ok snr ->
      SoundMixer.__call__ three_samples rs x snr
      = Raise (ValueError "operands could not be broadcast together")).
Proof.
  cbv zeta.
  assert (Hc : SoundMixer.__call__ three_samples rs (map Fin (repeat 1 10)) snr
               = mix (map Fin (repeat 1 10))
                     (SoundMixer.other three_samples) snr)
    by reflexivity.
  split; [reflexivity | split; [reflexivity | split; [exact Hc|]]].
  rewrite Hc. unfold three_samples, SoundMixer.other. split.
  - intros y. apply mix_unequal_never_returns;
      rewrite !length_map, ?repeat_length; simpl; lia.
  - intros Hd. apply mix_unequal_lengths;
      try apply isfinite_map_Fin; try exact Hd;
      rewrite !length_map, ?repeat_length; simpl; lia.
Qed.

Lemma short_secondary_not_padded_witness :
  level_ok 30
  /\ SoundMixer.__call__ three_samples last_offset
       (map Fin (repeat 1 10)) 30
     = Raise (ValueError "operands could not be broadcast together").
Proof.
  assert (H : level_ok 30) by (unfold level_ok; lra).
  split; [exact H|].
  exact (proj2 (proj2 (proj2 (proj2
           (short_secondary_not_padded last_offset 30)))) H).
Defined.

(** C5: when the secondary is longer than the primary, [mix] receives a
    contiguous window of the secondary of exactly [len(x)] samples, whose
    start offset is the value drawn by [randint(len(other) - len(x))]
    and lies in [[0, len(other) - len(x))], whatever the random source
    returns. *)
Theorem crop_window (self : SoundMixer.t) (rs : np.RandomState)
    (x : signal) (snr : R) :
  (length x < length (SoundMixer.other self))%nat ->
  exists st window,
    st = np.draw rs (length (SoundMixer.other self) - length x)
    /\ (st < length (SoundMixer.other self) - length x)%nat
    /\ window = np.slice (SoundMixer.other self) st (st + length x)
    /\ SoundMixer.__call__ self rs x snr = mix x window snr
    /\ length window = length x
    /\ exists before after,
         SoundMixer.other self = before ++ window ++ after
         /\ length before = st.
Proof.
  intros Hlt.
  set (high := (length (SoundMixer.other self) - length x)%nat).
  assert (Hh : (0 < high)%nat) by (unfold high; lia).
  pose proof (np.draw_lt rs high Hh) as Hd.
  exists (np.draw rs high),
         (np.slice (SoundMixer.other self) (np.draw rs high)
                   (np.draw rs high + length x)).
  split; [reflexivity | split; [exact Hd | split; [reflexivity|]]].
  split; [|split].
  - unfold SoundMixer.__call__.
    destruct (Nat.eqb_spec (length (SoundMixer.other self)) (length x));
      [lia|].
    destruct (Nat.ltb_spec (length (SoundMixer.other self)) (length x));
      [lia|].
    destruct (Nat.ltb_spec (length x) (length (SoundMixer.other self)));
      [|lia].
    fold high. unfold np.random_randint.
    destruct (Nat.eqb_spec high 0); [lia|]. reflexivity.
  - apply slice_length. unfold high in *. lia.
  - destruct (slice_contiguous (SoundMixer.other self) (np.draw rs high)
                (np.draw rs high + length x)) as [Ha Hb].
    + unfold high in *. lia.
    + eexists. eexists. split; [exact Ha | exact Hb].
Qed.

Lemma crop_window_witness :
  (length five_samples < length (SoundMixer.other ten_samples))%nat
  /\ exists st window,
       st = np.draw last_offset
              (length (SoundMixer.other ten_samples)
               - length five_samples)
       /\ (st < length (SoundMixer.other ten_samples)
                - length five_samples)%nat
       /\ window = np.slice (SoundMixer.other ten_samples) st
                            (st + length five_samples)
       /\ SoundMixer.__call__ ten_samples last_offset
            five_samples 30
          = mix five_samples window 30
       /\ length window = length five_samples
       /\ exists before after,
            SoundMixer.other ten_samples = before ++ window ++ after
            /\ length before = st.
Proof.
  assert (H : (length five_samples
               < length (SoundMixer.other ten_samples))%nat)
    by (simpl; lia).
  split; [exact H|].
  exact (crop_window ten_samples last_offset five_samples 30 H).
Defined.

(** C9: the three length comparisons of [SoundMixer.__call__] cover every
    pair of signals, so the final [else: raise ValueError()] is never
    reached: no call returns that error. *)
Theorem else_branch_unreachable (self : SoundMixer.t) (rs : np.RandomState)
    (x : signal) (snr : R) :
  Nat.eqb (length (SoundMixer.other self)) (length x)
  || Nat.ltb (length (SoundMixer.other self)) (length x)
  || Nat.ltb (length x) (length (SoundMixer.other self)) = true
  /\ SoundMixer.__call__ self rs x snr <> Raise (ValueError "").
Proof.
  unfold SoundMixer.__call__.
  destruct (Nat.eqb_spec (length (SoundMixer.other self)) (length x));
    [split; [reflexivity | apply mix_error]|].
  destruct (Nat.ltb_spec (length (SoundMixer.other self)) (length x));
    [split; [reflexivity | apply mix_error]|].
  destruct (Nat.ltb_spec (length x) (length (SoundMixer.other self)));
    [|lia].
  split; [reflexivity|].
  unfold np.random_randint.
  destruct (Nat.eqb (length (SoundMixer.other self) - length x) 0);
    cbn [bind]; [discriminate | apply mix_error].
Qed.

(** C6, evaluated where the code departs from it: the dump
    [write_wav(infile, x, sr)] stands before the [try] statement, so when
    it raises (here: the buffer holds a [nan], which [write_wav] refuses)
    the error reaches the caller while both temporary files still exist.
    [encode_step_releases] is the part that holds: once the dump is
    written, every exit removes both files. *)
Theorem temp_files_leak_when_dump_fails :
  MP3Compressor.__call__ (nominal [Fin 0]) 22050 [NaN] 128 empty_fs
  = (Raise (ParameterError "Audio buffer is not finite everywhere"),
     {| live := [ {| tmp_id := 1; tmp_suffix := ".mp3" |};
                  {| tmp_id := 0; tmp_suffix := ".wav" |} ];
        next_id := 2 |}).
Proof. reflexivity. Qed.

(** C7, evaluated where the code departs from it: when ffmpeg cannot be
    executed, the [except OSError] clause runs [raise RunTimeError(...)];
    no such name exists, so the caller gets [NameError], not a
    [RuntimeError] carrying the hint to verify that ffmpeg is installed.
    (Both temporary files are removed.) *)
Theorem missing_encoder_raises_NameError :
  MP3Compressor.__call__ (no_ffmpeg [Fin 0]) 22050 [Fin 0] 128 empty_fs
  = (Raise (NameError "RunTimeError"), {| live := []; next_id := 2 |}).
Proof. reflexivity. Qed.

(** C8: a bitrate outside the enumerated set makes the call fail at its
    first statement, the assertion, for every environment and signal; the
    file system is as it was, so no temporary file has been created. *)
Theorem invalid_bitrate_rejected_first (E : env) (sr : Z) (x : signal)
    (kbps : Z) (s : fs) :
  ~ In kbps MP3Compressor.bitrates ->
  MP3Compressor.__call__ E sr x kbps s = (Raise AssertionError, s).
Proof.
  intros H. unfold MP3Compressor.__call__.
  destruct (existsb (Z.eqb kbps) MP3Compressor.bitrates) eqn:E1.
  - exfalso. apply H, bitrate_check, E1.
  - reflexivity.
Qed.

Lemma invalid_bitrate_rejected_first_witness :
  ~ In 100%Z MP3Compressor.bitrates
  /\ MP3Compressor.__call__ (nominal [Fin 0]) 22050 [Fin 0] 100 empty_fs
     = (Raise AssertionError, empty_fs).
Proof.
  assert (H : ~ In 100%Z MP3Compressor.bitrates).
  { intros H. apply bitrate_check in H. discriminate H. }
  split; [exact H|].
  exact (invalid_bitrate_rejected_first (nominal [Fin 0]) 22050 [Fin 0]
           100 empty_fs H).
Defined.





(** ** Further properties of ops.py *)

Lemma single_sample_weight (v dB : R) :
  v <> 0 -> Rabs (v * gain [v] dB) = Rpower 10 (dB / 20).
Proof.
  intros Hv. pose proof (target_pos dB) as Ht.
  assert (Ha : 0 < Rabs v) by (apply Rabs_pos_lt, Hv).
  unfold gain. simpl length. simpl sumsq.
  replace (v * v + 0) with (Rsqr v) by (unfold Rsqr; ring).
  rewrite sqrt_Rsqr_abs. simpl INR. rewrite sqrt_1.
  rewrite Rabs_mult. rewrite (Rabs_right (_ / _)).
  - field. lra.
  - apply Rle_ge. left. apply Rdiv_lt_0_compat; lra.
Qed.

Lemma single_audible (v : R) : librosa.tiny <= Rabs v -> audible [v].
Proof.
  intros H. unfold audible. simpl. unfold Rmax.
  destruct (Rle_dec (Rabs v) 0); [|exact H].
  pose proof tiny_pos. lra.
Qed.

Lemma single_within_range (v : R) : within_range [v].
Proof.
  constructor; [|constructor].
  destruct (Req_dec v 0) as [E|N]; [left; exact E | right].
  assert (Hp : Rpeak [v] = Rabs v).
  { simpl. unfold Rmax. destruct (Rle_dec (Rabs v) 0) as [H|H]; [|reflexivity].
    pose proof (Rabs_pos v). lra. }
  rewrite Hp, dynamic_eq. pose proof (inv_pow2_le_1 500) as H5.
  pose proof (Rabs_pos v). nra.
Qed.

Lemma single_sized {A : Type} (v : A) : sized [v].
Proof.
  unfold sized. simpl. apply (pow2_ge_1 63).
Qed.

Lemma norm_n_weight_single (v dB : R) :
  librosa.tiny <= Rabs v -> level_ok dB ->
  _norm_n_weight [Fin v] dB = Ok [Fin (v * gain [v] dB)]
  /\ Rabs (v * gain [v] dB) = Rpower 10 (dB / 20).
Proof.
  intros Hv Hd. pose proof tiny_pos as Ht.
  assert (Hn : v <> 0).
  { intros E. rewrite E, Rabs_R0 in Hv. lra. }
  split; [|apply single_sample_weight, Hn].
  change [Fin v] with (map Fin [v]).
  rewrite norm_n_weight_Fin;
    [reflexivity | discriminate | apply single_audible, Hv
    | apply single_within_range | apply single_sized | exact Hd].
Qed.

Lemma bind_return {A : Type} (m : result A) : (y <- m ;; Ok y) = m.
Proof.
  destruct m; reflexivity.
Qed.

Lemma weighted_audible (s : list R) (dB : R) :
  s <> [] -> audible s -> level_ok dB -> audible (weighted s dB).
Proof.
  intros Hs Ha Hd. unfold audible.
  pose proof (weighted_peak_ge s dB Hs (audible_not_silent s Ha)) as Hp.
  pose proof (target_ge dB (proj1 Hd)) as Ht.
  pose proof (tiny_le 400) as T4.
  assert (librosa.tiny <= / 2 ^ 400) by (apply T4; lia). lra.
Qed.

(** X1: an empty signal is refused.  [_norm_n_weight] raises numpy's
    [ValueError] for an empty array, so does [mix] when its primary is
    empty, and [mix] never returns when its secondary is empty. *)
Theorem empty_signal_refused (x : signal) (dB snr : R) :
  _norm_n_weight [] dB = Raise (ValueError zero_size)
  /\ mix [] x snr = Raise (ValueError zero_size)
  /\ (mix x [] snr = Raise (ValueError zero_size)
      \/ mix x [] snr = Raise (ParameterError "Input must be finite")).
Proof.
  split; [reflexivity | split; [reflexivity|]].
  unfold mix.
  destruct (_norm_n_weight x 0) as [w|e] eqn:E; cbn [bind].
  - left. reflexivity.
  - destruct (norm_n_weight_errors x 0 e level_ok_0 E) as [-> | ->]; auto.
Qed.

(** X2: a signal with a sample that is not finite ([nan] or an infinity)
    is refused by [_norm_n_weight], and by [mix] when it is the primary,
    with librosa's [ParameterError]. *)
Theorem non_finite_signal_refused (x x1 : signal) (dB snr : R) :
  forallb isfinite x = false ->
  _norm_n_weight x dB = Raise (ParameterError "Input must be finite")
  /\ mix x x1 snr = Raise (ParameterError "Input must be finite").
Proof.
  intros H.
  assert (E : forall d, _norm_n_weight x d
                        = Raise (ParameterError "Input must be finite")).
  { intros d. unfold _norm_n_weight, librosa.normalize. rewrite H.
    reflexivity. }
  split; [apply E|]. unfold mix. rewrite E. reflexivity.
Qed.

Lemma non_finite_signal_refused_witness :
  forallb isfinite [Fin 1; NaN] = false
  /\ _norm_n_weight [Fin 1; NaN] 0
     = Raise (ParameterError "Input must be finite")
  /\ mix [Fin 1; NaN] [Fin 1; Fin 2] 30
     = Raise (ParameterError "Input must be finite").
Proof.
  split; [reflexivity|].
  exact (non_finite_signal_refused [Fin 1; NaN] [Fin 1; Fin 2] 0 30
           eq_refl).
Defined.

(** X3: [_norm_n_weight] keeps the waveform.  On a signal of at least
    one sample whose peak is a normal number, whose non-zero samples
    are within a factor [2 ** 500] of the peak, and for a level between
    -2000 and 2000 dB, its result is the input multiplied by one
    positive gain, so no sample changes sign and zeros stay zeros. *)
Theorem norm_n_weight_is_positive_gain (s : list R) (dB : R) :
  (1 <= length s)%nat ->
  sized s ->
  audible s ->
  within_range s ->
  level_ok dB ->
  exists k, 0 < k
            /\ _norm_n_weight (map Fin s) dB = Ok (map Fin (map (Rmult k) s)).
Proof.
  intros Hl Hn Ha Hw Hd. pose proof (nonempty_length s Hl) as Hs.
  exists (gain s dB).
  split; [apply gain_pos; [exact Hs | apply audible_not_silent, Ha]|].
  rewrite <- weighted_as_gain. apply norm_n_weight_Fin; assumption.
Qed.

Lemma norm_n_weight_is_positive_gain_witness :
  (1 <= length [2; -1]%R)%nat
  /\ sized [2; -1]
  /\ audible [2; -1]
  /\ within_range [2; -1]
  /\ level_ok (-30)
  /\ exists k, 0 < k
       /\ _norm_n_weight (map Fin [2; -1]) (-30)
          = Ok (map Fin (map (Rmult k) [2; -1])).
Proof.
  assert (Hp : plain [2; -1]) by plain_literal.
  assert (Zp : ~ silent [2; -1]) by not_silent_literal.
  assert (H1 : (1 <= length [2; -1]%R)%nat) by (simpl; lia).
  assert (H2 : sized [2; -1]) by (apply plain_sized, Hp).
  assert (H3 : audible [2; -1]) by (apply plain_audible; assumption).
  assert (H4 : within_range [2; -1])
    by (apply plain_within_range; assumption).
  assert (H5 : level_ok (-30)) by (unfold level_ok; lra).
  repeat (split; [assumption|]).
  exact (norm_n_weight_is_positive_gain [2; -1] (-30) H1 H2 H3 H4 H5).
Defined.

(** X4: weighting twice is weighting once at the last level.  For a
    signal as in X3 and two levels between -2000 and 2000 dB, the
    result of [_norm_n_weight s dB1], weighted again to [dB2], is
    [_norm_n_weight s dB2]; with [dB1 = dB2] the function is
    idempotent. *)
Theorem norm_n_weight_retarget (s : list R) (dB1 dB2 : R) :
  (1 <= length s)%nat ->
  sized s ->
  audible s ->
  within_range s ->
  level_ok dB1 ->
  level_ok dB2 ->
  exists y, _norm_n_weight (map Fin s) dB1 = Ok (map Fin y)
            /\ _norm_n_weight (map Fin y) dB2
               = _norm_n_weight (map Fin s) dB2.
Proof.
  intros Hl Hn Ha Hw H1 H2. pose proof (nonempty_length s Hl) as Hs.
  pose proof (audible_not_silent s Ha) as Hz.
  pose proof (gain_pos s dB1 Hs Hz) as Hg.
  exists (weighted s dB1). split; [apply norm_n_weight_Fin; assumption|].
  rewrite (norm_n_weight_Fin s dB2 Hs Ha Hw Hn H2).
  rewrite norm_n_weight_Fin.
  - rewrite (weighted_as_gain s dB1).
    rewrite weighted_scale by assumption. reflexivity.
  - apply weighted_nonempty, Hs.
  - apply weighted_audible; assumption.
  - rewrite weighted_as_gain. apply within_range_scale; assumption.
  - unfold weighted. apply sized_map, Hn.
  - exact H2.
Qed.

Lemma norm_n_weight_retarget_witness :
  (1 <= length [2; -1]%R)%nat
  /\ sized [2; -1]
  /\ audible [2; -1]
  /\ within_range [2; -1]
  /\ level_ok (-6)
  /\ level_ok 3
  /\ exists y, _norm_n_weight (map Fin [2; -1]) (-6) = Ok (map Fin y)
               /\ _norm_n_weight (map Fin y) 3
                  = _norm_n_weight (map Fin [2; -1]) 3.
Proof.
  assert (Hp : plain [2; -1]) by plain_literal.
  assert (Zp : ~ silent [2; -1]) by not_silent_literal.
  assert (H1 : (1 <= length [2; -1]%R)%nat) by (simpl; lia).
  assert (H2 : sized [2; -1]) by (apply plain_sized, Hp).
  assert (H3 : audible [2; -1]) by (apply plain_audible; assumption).
  assert (H4 : within_range [2; -1])
    by (apply plain_within_range; assumption).
  assert (H5 : level_ok (-6)) by (unfold level_ok; lra).
  assert (H6 : level_ok 3) by (unfold level_ok; lra).
  repeat (split; [assumption|]).
  exact (norm_n_weight_retarget [2; -1] (-6) 3 H1 H2 H3 H4 H5 H6).
Defined.

(** X5: the level is a gain in decibels.  For a signal as in X3, and
    when both [dB] and [dB + d] lie between -2000 and 2000, raising the
    target by [d] dB multiplies every sample of the result by
    [10 ** (d / 20)]. *)
Theorem norm_n_weight_level_shift (s : list R) (dB d : R) :
  (1 <= length s)%nat ->
  sized s ->
  audible s ->
  within_range s ->
  level_ok dB ->
  level_ok (dB + d) ->
  exists y, _norm_n_weight (map Fin s) dB = Ok (map Fin y)
            /\ _norm_n_weight (map Fin s) (dB + d)
               = Ok (map Fin (map (Rmult (Rpower 10 (d / 20))) y)).
Proof.
  intros Hl Hn Ha Hw H1 H2. pose proof (nonempty_length s Hl) as Hs.
  exists (weighted s dB). split; [apply norm_n_weight_Fin; assumption|].
  rewrite (norm_n_weight_Fin s (dB + d) Hs Ha Hw Hn H2). do 2 f_equal.
  unfold weighted. rewrite map_map. apply map_ext. intros v.
  unfold gain.
  replace ((dB + d) / 20) with (dB / 20 + d / 20) by lra.
  rewrite Rpower_plus. unfold Rdiv. ring.
Qed.

Lemma norm_n_weight_level_shift_witness :
  (1 <= length [2; -1]%R)%nat
  /\ sized [2; -1]
  /\ audible [2; -1]
  /\ within_range [2; -1]
  /\ level_ok 0
  /\ level_ok (0 + 20)
  /\ exists y, _norm_n_weight (map Fin [2; -1]) 0 = Ok (map Fin y)
               /\ _norm_n_weight (map Fin [2; -1]) (0 + 20)
                  = Ok (map Fin (map (Rmult (Rpower 10 (20 / 20))) y)).
Proof.
  assert (Hp : plain [2; -1]) by plain_literal.
  assert (Zp : ~ silent [2; -1]) by not_silent_literal.
  assert (H1 : (1 <= length [2; -1]%R)%nat) by (simpl; lia).
  assert (H2 : sized [2; -1]) by (apply plain_sized, Hp).
  assert (H3 : audible [2; -1]) by (apply plain_audible; assumption).
  assert (H4 : within_range [2; -1])
    by (apply plain_within_range; assumption).
  assert (H5 : level_ok 0) by (unfold level_ok; lra).
  assert (H6 : level_ok (0 + 20)) by (unfold level_ok; lra).
  repeat (split; [assumption|]).
  exact (norm_n_weight_level_shift [2; -1] 0 20 H1 H2 H3 H4 H5 H6).
Defined.

(** X6: for a signal of at least one sample whose peak is a normal
    number and a level between -2000 and 2000 dB, the peak of the
    weighted signal lies between the target level [10 ** (dB / 20)] and
    that level times [sqrt(len(s))]; it is not kept at or below 1.0. *)
Theorem norm_n_weight_peak_bounds (s : list R) (dB : R) :
  (1 <= length s)%nat ->
  sized s ->
  audible s ->
  level_ok dB ->
  exists y m,
    _norm_n_weight (map Fin s) dB = Ok y
    /\ peak y = Ok (Fin m)
    /\ Rpower 10 (dB / 20) <= m
    /\ m <= Rpower 10 (dB / 20) * sqrt (INR (length s)).
Proof.
  intros Hl Hn Ha Hd. pose proof (nonempty_length s Hl) as Hs.
  assert (Hw : weightedF s dB <> []).
  { intros E. apply (f_equal (@length R)) in E.
    rewrite weightedF_length in E. destruct s; simpl in E; congruence. }
  exists (map Fin (weightedF s dB)), (Rpeak (weightedF s dB)).
  split; [apply norm_n_weight_audible; assumption|].
  split; [apply peak_Fin, Hw|].
  rewrite (weightedF_peak s dB Hs Ha Hn Hd).
  destruct (ratio_bounds s dB Hs Ha Hn Hd) as (R1 & _).
  split; [exact R1|].
  destruct (dot_normalized_bounds s Hs Ha) as (D1 & _).
  pose proof (sqrt_len_pos s Hs) as Hq.
  pose proof (target_pos dB) as Ht.
  assert (Hr : 1 <= sqrt (dot_self (normalized s))).
  { rewrite <- sqrt_1. apply sqrt_le_1_alt, D1. }
  unfold ratio, rms_normalized.
  replace (Rpower 10 (dB / 20)
           / (sqrt (dot_self (normalized s)) / sqrt (INR (length s))))
    with (Rpower 10 (dB / 20) * sqrt (INR (length s))
          * / sqrt (dot_self (normalized s))) by (field; lra).
  rewrite <- (Rmult_1_r (Rpower 10 (dB / 20) * sqrt (INR (length s)))) at 2.
  apply Rmult_le_compat_l; [nra|].
  rewrite <- Rinv_1. apply Rinv_le_contravar; lra.
Qed.

Lemma norm_n_weight_peak_bounds_witness :
  (1 <= length [1; 0]%R)%nat
  /\ sized [1; 0]
  /\ audible [1; 0]
  /\ level_ok 0
  /\ exists y m,
       _norm_n_weight (map Fin [1; 0]) 0 = Ok y
       /\ peak y = Ok (Fin m)
       /\ Rpower 10 (0 / 20) <= m
       /\ m <= Rpower 10 (0 / 20) * sqrt (INR (length [1; 0]%R)).
Proof.
  assert (Hp : plain [1; 0]) by plain_literal.
  assert (Zp : ~ silent [1; 0]) by not_silent_literal.
  assert (H1 : (1 <= length [1; 0]%R)%nat) by (simpl; lia).
  assert (H2 : sized [1; 0]) by (apply plain_sized, Hp).
  assert (H3 : audible [1; 0]) by (apply plain_audible; assumption).
  assert (H4 : level_ok 0) by apply level_ok_0.
  repeat (split; [assumption|]).
  exact (norm_n_weight_peak_bounds [1; 0] 0 H1 H2 H3 H4).
Defined.

(** X7: [mix] sets the requested signal-to-noise ratio.  For two
    signals of equal length as in X3 and an SNR between -2000 and
    2000 dB, line 18 weights the primary by one positive gain and line
    19 the secondary by another, the RMS of the weighted primary is
    [10 ** (snr / 20)] times the RMS of the weighted secondary, and
    [mix] returns [normalize] of their sum. *)
Theorem mix_components_at_snr (p q : list R) (snr : R) :
  (1 <= length p)%nat ->
  length p = length q ->
  sized p ->
  audible p ->
  audible q ->
  within_range p ->
  within_range q ->
  level_ok snr ->
  exists g h sm,
    0 < g /\ 0 < h
    /\ _norm_n_weight (map Fin p) 0 = Ok (map Fin (map (Rmult g) p))
    /\ _norm_n_weight (map Fin q) (- snr) = Ok (map Fin (map (Rmult h) q))
    /\ np.add (map Fin (map (Rmult g) p)) (map Fin (map (Rmult h) q)) = Ok sm
    /\ mix (map Fin p) (map Fin q) snr = librosa.normalize sm
    /\ 0 < Rrms (map (Rmult h) q)
    /\ Rrms (map (Rmult g) p)
       = Rpower 10 (snr / 20) * Rrms (map (Rmult h) q).
Proof.
  intros Hl He Hn Ap Aq Wp Wq Hd. pose proof (nonempty_length p Hl) as Hp.
  assert (Hq : q <> []) by (destruct p, q; simpl in *; congruence).
  pose proof (sized_same p q He Hn) as Hnq.
  pose proof (level_ok_opp snr Hd) as Hd'.
  pose proof (audible_not_silent p Ap) as Zp.
  pose proof (audible_not_silent q Aq) as Zq.
  pose proof (norm_n_weight_Fin p 0 Hp Ap Wp Hn level_ok_0) as E0.
  pose proof (norm_n_weight_Fin q (- snr) Hq Aq Wq Hnq Hd') as E1.
  pose proof (weightedF_exact p 0 Hp Ap Wp Hn level_ok_0) as F0.
  pose proof (weightedF_exact q (- snr) Hq Aq Wq Hnq Hd') as F1.
  pose proof (weighted_rms p 0 Hp Zp) as R0.
  pose proof (weighted_rms q (- snr) Hq Zq) as R1.
  rewrite weighted_as_gain in E0, R0. rewrite weighted_as_gain in E1, R1.
  assert (Ea : np.add (map Fin (map (Rmult (gain p 0)) p))
                      (map Fin (map (Rmult (gain q (- snr))) q))
               = Ok (map Fin (summed (weightedF p 0) (weightedF q (- snr))))).
  { rewrite <- !weighted_as_gain, <- F0, <- F1.
    apply add_summed;
      [ rewrite !weightedF_length; exact He
      | apply weightedF_bounded; auto using level_ok_0
      | apply weightedF_bounded; assumption ]. }
  exists (gain p 0), (gain q (- snr)),
         (map Fin (summed (weightedF p 0) (weightedF q (- snr)))).
  split; [apply gain_pos; assumption|].
  split; [apply gain_pos; assumption|].
  split; [exact E0|]. split; [exact E1|]. split; [exact Ea|].
  split.
  { unfold mix. rewrite E0. cbn [bind]. rewrite E1. cbn [bind].
    rewrite Ea. cbn [bind]. apply bind_return. }
  rewrite R0, R1. split; [apply target_pos|].
  rewrite <- Rpower_plus.
  replace (snr / 20 + - snr / 20) with (0 / 20) by lra. reflexivity.
Qed.

Lemma mix_components_at_snr_witness :
  (1 <= length [1; 0]%R)%nat
  /\ length [1; 0] = length [0; 1]
  /\ sized [1; 0]
  /\ audible [1; 0]
  /\ audible [0; 1]
  /\ within_range [1; 0]
  /\ within_range [0; 1]
  /\ level_ok 30
  /\ exists g h sm,
       0 < g /\ 0 < h
       /\ _norm_n_weight (map Fin [1; 0]) 0
          = Ok (map Fin (map (Rmult g) [1; 0]))
       /\ _norm_n_weight (map Fin [0; 1]) (- 30)
          = Ok (map Fin (map (Rmult h) [0; 1]))
       /\ np.add (map Fin (map (Rmult g) [1; 0]))
                 (map Fin (map (Rmult h) [0; 1])) = Ok sm
       /\ mix (map Fin [1; 0]) (map Fin [0; 1]) 30 = librosa.normalize sm
       /\ 0 < Rrms (map (Rmult h) [0; 1])
       /\ Rrms (map (Rmult g) [1; 0])
          = Rpower 10 (30 / 20) * Rrms (map (Rmult h) [0; 1]).
Proof.
  assert (Hp : plain [1; 0]) by plain_literal.
  assert (Hq : plain [0; 1]) by plain_literal.
  assert (Zp : ~ silent [1; 0]) by not_silent_literal.
  assert (Zq : ~ silent [0; 1]) by not_silent_literal.
  assert (H1 : (1 <= length [1; 0]%R)%nat) by (simpl; lia).
  assert (H2 : length [1; 0] = length [0; 1]) by reflexivity.
  assert (H3 : sized [1; 0]) by (apply plain_sized, Hp).
  assert (H4 : audible [1; 0]) by (apply plain_audible; assumption).
  assert (H5 : audible [0; 1]) by (apply plain_audible; assumption).
  assert (H6 : within_range [1; 0])
    by (apply plain_within_range; assumption).
  assert (H7 : within_range [0; 1])
    by (apply plain_within_range; assumption).
  assert (H8 : level_ok 30) by (unfold level_ok; lra).
  repeat (split; [assumption|]).
  exact (mix_components_at_snr [1; 0] [0; 1] 30 H1 H2 H3 H4 H5 H6 H7 H8).
Defined.



(** X9: [mix] refuses silence.  With signals of equal length and an SNR
    between -2000 and 2000 dB, if the primary or the secondary is
    all-zero the call ends in librosa's [ParameterError]: the silent
    signal is weighted to [nan]s and the closing [normalize] rejects
    the sum. *)
Theorem mix_refuses_silence (p q : list R) (snr : R) :
  (1 <= length p)%nat ->
  length p = length q ->
  silent p \/ silent q ->
  level_ok snr ->
  mix (map Fin p) (map Fin q) snr
  = Raise (ParameterError "Input must be finite").
Proof.
  intros Hl He Hz Hd. pose proof (nonempty_length p Hl) as Hp.
  assert (Hq : q <> []) by (destruct p, q; simpl in *; congruence).
  assert (Hp' : map Fin p <> [])
    by (destruct p; [congruence | simpl; congruence]).
  assert (Hq' : map Fin q <> [])
    by (destruct q; [congruence | simpl; congruence]).
  pose proof (level_ok_opp snr Hd) as Hd'.
  unfold mix. destruct Hz as [Hz|Hz].
  - rewrite (norm_n_weight_silent p 0 Hp Hz level_ok_0). cbn [bind].
    destruct (norm_n_weight_returns (map Fin q) (- snr) Hq'
                (isfinite_map_Fin q) Hd') as (w1 & Hw & Hlw).
    rewrite Hw. cbn [bind]. rewrite length_map in Hlw.
    unfold np.add. rewrite repeat_length, Hlw, He, Nat.eqb_refl.
    rewrite <- Hlw, zip_add_nan_l. cbn [bind].
    rewrite normalize_nan by lia. reflexivity.
  - destruct (norm_n_weight_returns (map Fin p) 0 Hp'
                (isfinite_map_Fin p) level_ok_0) as (w0 & Hw & Hlw).
    rewrite Hw. cbn [bind]. rewrite length_map in Hlw.
    rewrite (norm_n_weight_silent q (- snr) Hq Hz Hd'). cbn [bind].
    unfold np.add. rewrite repeat_length, Hlw, He, Nat.eqb_refl.
    rewrite <- He, <- Hlw, zip_add_nan. cbn [bind].
    rewrite normalize_nan by lia. reflexivity.
Qed.

Lemma mix_refuses_silence_witness :
  (1 <= length [1; 2]%R)%nat
  /\ length [1; 2] = length [0; 0]
  /\ (silent [1; 2] \/ silent [0; 0])
  /\ level_ok 30
  /\ mix (map Fin [1; 2]) (map Fin [0; 0]) 30
     = Raise (ParameterError "Input must be finite").
Proof.
  assert (H1 : (1 <= length [1; 2]%R)%nat) by (simpl; lia).
  assert (H2 : length [1; 2] = length [0; 0]) by reflexivity.
  assert (H3 : silent [1; 2] \/ silent [0; 0])
    by (right; repeat constructor).
  assert (H4 : level_ok 30) by (unfold level_ok; lra).
  repeat (split; [assumption|]).
  exact (mix_refuses_silence [1; 2] [0; 0] 30 H1 H2 H3 H4).
Defined.

(** X10: [mix] does not reconcile lengths: for an SNR between -2000 and
    2000 dB, two finite signals of different lengths and of at least
    two samples each end in numpy's broadcasting [ValueError]. *)
Theorem mix_refuses_unequal_lengths (p q : list R) (snr : R) :
  (2 <= length p)%nat ->
  (2 <= length q)%nat ->
  length p <> length q ->
  level_ok snr ->
  mix (map Fin p) (map Fin q) snr
  = Raise (ValueError "operands could not be broadcast together").
Proof.
  intros Hp Hq Hne Hd.
  apply mix_unequal_lengths;
    try apply isfinite_map_Fin; rewrite ?length_map; assumption.
Qed.

Lemma mix_refuses_unequal_lengths_witness :
  (2 <= length [1; 2; 3]%R)%nat
  /\ (2 <= length [1; 2]%R)%nat
  /\ length [1; 2; 3] <> length [1; 2]
  /\ level_ok 30
  /\ mix (map Fin [1; 2; 3]) (map Fin [1; 2]) 30
     = Raise (ValueError "operands could not be broadcast together").
Proof.
  assert (H1 : (2 <= length [1; 2; 3]%R)%nat) by (simpl; lia).
  assert (H2 : (2 <= length [1; 2]%R)%nat) by (simpl; lia).
  assert (H3 : length [1; 2; 3] <> length [1; 2]) by (simpl; lia).
  assert (H4 : level_ok 30) by (unfold level_ok; lra).
  repeat (split; [assumption|]).
  exact (mix_refuses_unequal_lengths [1; 2; 3] [1; 2] 30 H1 H2 H3 H4).
Defined.

Lemma broadcast_sum (w : list R) (c : R) :
  Forall (fun y => Rabs y <= 2 ^ 432) w ->
  Rabs c <= 2 ^ 432 ->
  map (fun u => fadd u (Fin c)) (map Fin w)
  = map Fin (map (fun u => flush (u + c)) w)
  /\ map (fun u => fadd (Fin c) u) (map Fin w)
     = map Fin (map (fun u => flush (c + u)) w).
Proof.
  intros Hw Hc. rewrite !map_map.
  split; apply map_ext_in; intros u Hu;
    (rewrite Forall_forall in Hw; pose proof (Hw u Hu) as Hb;
     cbn [fadd]; apply (rnd_bounded _ 433); [|lia];
     rewrite <- double_pow2;
     eapply Rle_trans; [apply Rabs_triang | lra]).
Qed.

Lemma target_bounded (dB : R) :
  level_ok dB -> Rpower 10 (dB / 20) <= 2 ^ 432.
Proof.
  intros [_ H]. pose proof (target_le dB H) as Ht.
  assert (2 ^ 400 <= 2 ^ 432) by (apply pow2_le; lia). lra.
Qed.

(** X11: a secondary of one sample is broadcast.  With a primary of at
    least two samples whose peak is a normal number, a single sample
    [v] of normal magnitude and an SNR between -2000 and 2000 dB, [mix]
    does not fail: the single weighted sample, of magnitude
    [10 ** (-snr / 20)], is added to every sample of the weighted
    primary, and the result has [len(primary)] samples. *)
Theorem mix_broadcasts_single_secondary (p : list R) (v snr : R) :
  (2 <= length p)%nat ->
  sized p ->
  audible p ->
  librosa.tiny <= Rabs v ->
  level_ok snr ->
  exists w c y,
    _norm_n_weight (map Fin p) 0 = Ok (map Fin w)
    /\ _norm_n_weight [Fin v] (- snr) = Ok [Fin c]
    /\ Rabs c = Rpower 10 (- snr / 20)
    /\ mix (map Fin p) [Fin v] snr = Ok y
    /\ librosa.normalize (map Fin (map (fun u => flush (u + c)) w)) = Ok y
    /\ length y = length p.
Proof.
  intros Hl Hn Ha Hv Hd.
  assert (Hp : p <> []) by (apply nonempty_length; lia).
  pose proof (level_ok_opp snr Hd) as Hd'.
  destruct (norm_n_weight_single v (- snr) Hv Hd') as (Ec & Hc).
  set (c := v * gain [v] (- snr)) in *.
  set (w := weightedF p 0).
  assert (Hlw : length w = length p) by apply weightedF_length.
  set (z := map (fun u => flush (u + c)) w).
  assert (Hz : z <> []).
  { unfold z. destruct w; simpl in *; [lia | congruence]. }
  pose proof (norm_n_weight_audible p 0 Hp Ha Hn level_ok_0) as Ew.
  fold w in Ew.
  pose proof (normalize_Fin z Hz) as Hnorm.
  exists w, c, (map Fin (normalized z)).
  split; [exact Ew|]. split; [exact Ec|]. split; [exact Hc|].
  split; [|split; [exact Hnorm|]].
  - unfold mix. rewrite Ew. cbn [bind]. rewrite Ec. cbn [bind].
    assert (Ea : np.add (map Fin w) [Fin c] = Ok (map Fin z)).
    { unfold np.add. rewrite length_map, Hlw.
      destruct (Nat.eqb_spec (length p) (length [Fin c])) as [E|_];
        [simpl in E; lia|].
      destruct (broadcast_sum w c) as (B & _).
      { apply weightedF_bounded; auto using level_ok_0. }
      { rewrite Hc. apply target_bounded, Hd'. }
      destruct w as [|u0 [|u1 w']]; simpl in Hlw; try lia.
      cbn [map] in *. f_equal. exact B. }
    rewrite Ea. cbn [bind]. rewrite Hnorm. reflexivity.
  - rewrite length_map, normalized_length. unfold z.
    rewrite length_map. exact Hlw.
Qed.

Lemma mix_broadcasts_single_secondary_witness :
  (2 <= length [1; 2; 3]%R)%nat
  /\ sized [1; 2; 3]
  /\ audible [1; 2; 3]
  /\ librosa.tiny <= Rabs (-5)
  /\ level_ok 30
  /\ exists w c y,
       _norm_n_weight (map Fin [1; 2; 3]) 0 = Ok (map Fin w)
       /\ _norm_n_weight [Fin (-5)] (- 30) = Ok [Fin c]
       /\ Rabs c = Rpower 10 (- 30 / 20)
       /\ mix (map Fin [1; 2; 3]) [Fin (-5)] 30 = Ok y
       /\ librosa.normalize (map Fin (map (fun u => flush (u + c)) w)) = Ok y
       /\ length y = length [1; 2; 3]%R.
Proof.
  assert (Hp : plain [1; 2; 3]) by plain_literal.
  assert (Zp : ~ silent [1; 2; 3]) by not_silent_literal.
  assert (H1 : (2 <= length [1; 2; 3]%R)%nat) by (simpl; lia).
  assert (H2 : sized [1; 2; 3]) by (apply plain_sized, Hp).
  assert (H3 : audible [1; 2; 3]) by (apply plain_audible; assumption).
  assert (H4 : librosa.tiny <= Rabs (-5)).
  { pose proof tiny_le_1. rewrite Rabs_left by lra. lra. }
  assert (H5 : level_ok 30) by (unfold level_ok; lra).
  repeat (split; [assumption|]).
  exact (mix_broadcasts_single_secondary [1; 2; 3] (-5) 30 H1 H2 H3 H4 H5).
Defined.

(** X12: a primary of one sample is broadcast too, so [mix] can return
    more samples than its primary has: with a single sample of normal
    magnitude, a secondary of at least two samples whose peak is a
    normal number and an SNR between -2000 and 2000 dB, the result has
    [len(secondary)] samples. *)
Theorem mix_broadcasts_single_primary (q : list R) (u snr : R) :
  (2 <= length q)%nat ->
  sized q ->
  audible q ->
  librosa.tiny <= Rabs u ->
  level_ok snr ->
  exists y, mix [Fin u] (map Fin q) snr = Ok y /\ length y = length q.
Proof.
  intros Hl Hn Ha Hu Hd.
  assert (Hq : q <> []) by (apply nonempty_length; lia).
  pose proof (level_ok_opp snr Hd) as Hd'.
  destruct (norm_n_weight_single u 0 Hu level_ok_0) as (Ec & Hc).
  set (c := u * gain [u] 0) in *.
  set (w := weightedF q (- snr)).
  assert (Hlw : length w = length q) by apply weightedF_length.
  set (z := map (fun v => flush (c + v)) w).
  assert (Hz : z <> []).
  { unfold z. destruct w; simpl in *; [lia | congruence]. }
  exists (map Fin (normalized z)).
  split.
  - unfold mix. rewrite Ec. cbn [bind].
    rewrite (norm_n_weight_audible q (- snr) Hq Ha Hn Hd'). cbn [bind].
    fold w.
    assert (Ea : np.add [Fin c] (map Fin w) = Ok (map Fin z)).
    { unfold np.add. rewrite length_map, Hlw.
      destruct (Nat.eqb_spec (length [Fin c]) (length q)) as [E|_];
        [simpl in E; lia|].
      destruct (broadcast_sum w c) as (_ & B).
      { apply weightedF_bounded; assumption. }
      { rewrite Hc. apply target_bounded, level_ok_0. }
      f_equal. exact B. }
    rewrite Ea. cbn [bind]. rewrite (normalize_Fin z Hz). reflexivity.
  - rewrite length_map, normalized_length. unfold z.
    rewrite length_map. exact Hlw.
Qed.

Lemma mix_broadcasts_single_primary_witness :
  (2 <= length [1; 2; 3]%R)%nat
  /\ sized [1; 2; 3]
  /\ audible [1; 2; 3]
  /\ librosa.tiny <= Rabs 7
  /\ level_ok 30
  /\ exists y, mix [Fin 7] (map Fin [1; 2; 3]) 30 = Ok y
               /\ length y = length [1; 2; 3]%R.
Proof.
  assert (Hp : plain [1; 2; 3]) by plain_literal.
  assert (Zp : ~ silent [1; 2; 3]) by not_silent_literal.
  assert (H1 : (2 <= length [1; 2; 3]%R)%nat) by (simpl; lia).
  assert (H2 : sized [1; 2; 3]) by (apply plain_sized, Hp).
  assert (H3 : audible [1; 2; 3]) by (apply plain_audible; assumption).
  assert (H4 : librosa.tiny <= Rabs 7).
  { pose proof tiny_le_1. rewrite Rabs_right by lra. lra. }
  assert (H5 : level_ok 30) by (unfold level_ok; lra).
  repeat (split; [assumption|]).
  exact (mix_broadcasts_single_primary [1; 2; 3] 7 30 H1 H2 H3 H4 H5).
Defined.

(** X13: the result of [mix] never clips: for signals of equal length
    whose peaks are normal numbers and an SNR between -2000 and
    2000 dB, every sample of the result lies in [[-1, 1]]. *)
Theorem mix_samples_within_unit (p q : list R) (snr : R) :
  (1 <= length p)%nat ->
  length p = length q ->
  sized p ->
  audible p ->
  audible q ->
  level_ok snr ->
  exists y, mix (map Fin p) (map Fin q) snr = Ok (map Fin y)
            /\ Forall (fun v => -1 <= v <= 1) y.
Proof.
  intros Hl He Hn Ap Aq Hd. pose proof (nonempty_length p Hl) as Hp.
  exists (mixed p q snr). split; [apply mix_audible; assumption|].
  unfold mixed. apply normalized_within_unit.
Qed.

Lemma mix_samples_within_unit_witness :
  (1 <= length [1; 0]%R)%nat
  /\ length [1; 0] = length [0; 1]
  /\ sized [1; 0]
  /\ audible [1; 0]
  /\ audible [0; 1]
  /\ level_ok (-12)
  /\ exists y, mix (map Fin [1; 0]) (map Fin [0; 1]) (-12) = Ok (map Fin y)
               /\ Forall (fun v => -1 <= v <= 1) y.
Proof.
  assert (Hp : plain [1; 0]) by plain_literal.
  assert (Hq : plain [0; 1]) by plain_literal.
  assert (Zp : ~ silent [1; 0]) by not_silent_literal.
  assert (Zq : ~ silent [0; 1]) by not_silent_literal.
  assert (H1 : (1 <= length [1; 0]%R)%nat) by (simpl; lia).
  assert (H2 : length [1; 0] = length [0; 1]) by reflexivity.
  assert (H3 : sized [1; 0]) by (apply plain_sized, Hp).
  assert (H4 : audible [1; 0]) by (apply plain_audible; assumption).
  assert (H5 : audible [0; 1]) by (apply plain_audible; assumption).
  assert (H6 : level_ok (-12)) by (unfold level_ok; lra).
  repeat (split; [assumption|]).
  exact (mix_samples_within_unit [1; 0] [0; 1] (-12) H1 H2 H3 H4 H5 H6).
Defined.

(** X14: at 0 dB the two arguments of [mix] play the same part: for
    finite, equal-length signals that are not all-zero,
    [mix(p, q, 0)] is [mix(q, p, 0)]. *)
Theorem mix_symmetric_at_zero_db (p q : list R) :
  (1 <= length p)%nat ->
  length p = length q ->
  ~ silent p ->
  ~ silent q ->
  mix (map Fin p) (map Fin q) 0 = mix (map Fin q) (map Fin p) 0.
Proof.
  intros Hl He _ _. pose proof (nonempty_length p Hl) as Hp.
  assert (Hp' : map Fin p <> [])
    by (destruct p; [congruence | simpl; congruence]).
  assert (Hq' : map Fin q <> [])
    by (destruct p, q; simpl in *; congruence).
  destruct (norm_n_weight_returns (map Fin p) 0 Hp'
              (isfinite_map_Fin p) level_ok_0) as (a & Ea & La).
  destruct (norm_n_weight_returns (map Fin q) 0 Hq'
              (isfinite_map_Fin q) level_ok_0) as (b & Eb & Lb).
  rewrite length_map in La, Lb.
  unfold mix. rewrite Ropp_0, Ea, Eb. cbn [bind].
  unfold np.add. rewrite La, Lb, <- He, Nat.eqb_refl.
  rewrite (zip_add_comm b a). reflexivity.
Qed.

Lemma mix_symmetric_at_zero_db_witness :
  (1 <= length [1; 0]%R)%nat
  /\ length [1; 0] = length [0; 1]
  /\ ~ silent [1; 0]
  /\ ~ silent [0; 1]
  /\ mix (map Fin [1; 0]) (map Fin [0; 1]) 0
     = mix (map Fin [0; 1]) (map Fin [1; 0]) 0.
Proof.
  assert (H1 : (1 <= length [1; 0]%R)%nat) by (simpl; lia).
  assert (H2 : length [1; 0] = length [0; 1]) by reflexivity.
  assert (H3 : ~ silent [1; 0]) by (intros H; inversion H; lra).
  assert (H4 : ~ silent [0; 1]).
  { intros H. inversion H as [|? ? _ H']. inversion H'. lra. }
  repeat (split; [assumption|]).
  exact (mix_symmetric_at_zero_db [1; 0] [0; 1] H1 H2 H3 H4).
Defined.

(** ** Further properties of transform.py: [SoundMixer] *)

(** X15: a secondary that is shorter than the input, and has at least
    two samples, makes [SoundMixer.__call__] fail for every finite
    input and every SNR between -2000 and 2000 dB: the [repeat] branch
    mixes with the unpadded secondary and numpy refuses the two
    shapes. *)
Theorem short_secondary_refused (sr : Z) (rs : np.RandomState)
    (p q : list R) (snr : R) :
  (2 <= length q)%nat ->
  (length q < length p)%nat ->
  level_ok snr ->
  SoundMixer.__call__
    {| SoundMixer.other := map Fin q; SoundMixer.sample_rate := sr |}
    rs (map Fin p) snr
  = Raise (ValueError "operands could not be broadcast together").
Proof.
  intros Hq Hlt Hd. unfold SoundMixer.__call__.
  cbn [SoundMixer.other]. rewrite !length_map.
  destruct (Nat.eqb_spec (length q) (length p)); [lia|].
  destruct (Nat.ltb_spec (length q) (length p)); [|lia].
  apply mix_unequal_lengths;
    try apply isfinite_map_Fin; rewrite ?length_map; try assumption; lia.
Qed.

Lemma short_secondary_refused_witness :
  (2 <= length [1; 2]%R)%nat
  /\ (length [1; 2]%R < length [1; 2; 3]%R)%nat
  /\ level_ok 30
  /\ SoundMixer.__call__
       {| SoundMixer.other := map Fin [1; 2];
          SoundMixer.sample_rate := 22050 |}
       last_offset (map Fin [1; 2; 3]) 30
     = Raise (ValueError "operands could not be broadcast together").
Proof.
  assert (H1 : (2 <= length [1; 2]%R)%nat) by (simpl; lia).
  assert (H2 : (length [1; 2]%R < length [1; 2; 3]%R)%nat) by (simpl; lia).
  assert (H3 : level_ok 30) by (unfold level_ok; lra).
  repeat (split; [assumption|]).
  exact (short_secondary_refused 22050 last_offset [1; 2; 3] [1; 2] 30
           H1 H2 H3).
Defined.

(** X16: the padding of the [repeat] branch appends one slice of the
    secondary, so it reaches [len(x)] samples only when [x] is at most
    twice as long as the secondary; beyond that it stops at twice the
    secondary's length. *)
Theorem padding_reaches_at_most_twice (self : SoundMixer.t) (x : signal) :
  (length (SoundMixer.other self) < length x)%nat ->
  (length (SoundMixer.repeated self x) = length x
   <-> (length x <= 2 * length (SoundMixer.other self))%nat)
  /\ ((2 * length (SoundMixer.other self) < length x)%nat ->
      length (SoundMixer.repeated self x)
      = (2 * length (SoundMixer.other self))%nat).
Proof.
  intros Hlt. rewrite repeated_length. lia.
Qed.

Lemma padding_reaches_at_most_twice_witness :
  (length (SoundMixer.other three_samples) < length five_samples)%nat
  /\ (length (SoundMixer.repeated three_samples five_samples)
      = length five_samples
      <-> (length five_samples
           <= 2 * length (SoundMixer.other three_samples))%nat)
  /\ ((2 * length (SoundMixer.other three_samples)
       < length five_samples)%nat ->
      length (SoundMixer.repeated three_samples five_samples)
      = (2 * length (SoundMixer.other three_samples))%nat).
Proof.
  assert (H : (length (SoundMixer.other three_samples)
               < length five_samples)%nat) by (simpl; lia).
  split; [exact H|].
  exact (padding_reaches_at_most_twice three_samples five_samples H).
Defined.

(** X17: whatever the signals and the random source, a signal that
    [SoundMixer.__call__] returns has exactly [len(x)] samples. *)
Theorem sound_mixer_returns_input_length (self : SoundMixer.t)
    (rs : np.RandomState) (x y : signal) (snr : R) :
  SoundMixer.__call__ self rs x snr = Ok y ->
  length y = length x.
Proof.
  unfold SoundMixer.__call__.
  destruct (Nat.eqb_spec (length (SoundMixer.other self)) (length x))
    as [E|N].
  - intros H. apply mix_length in H; [exact H | congruence].
  - destruct (Nat.ltb_spec (length (SoundMixer.other self)) (length x))
      as [L|L].
    + intros H. apply mix_shape in H.
      destruct H as (_ & H1 & [H|[H _]]); [exact H | lia].
    + destruct (Nat.ltb_spec (length x) (length (SoundMixer.other self)))
        as [G|G]; [|lia].
      unfold np.random_randint.
      destruct (Nat.eqb_spec
                  (length (SoundMixer.other self) - length x) 0);
        [lia|].
      cbn [bind]. intros H. apply mix_length in H; [exact H|].
      rewrite slice_length; [reflexivity|].
      pose proof (np.draw_lt rs
                    (length (SoundMixer.other self) - length x)).
      lia.
Qed.

Lemma sound_mixer_returns_input_length_witness :
  exists y,
    SoundMixer.__call__ ten_samples last_offset five_samples 30 = Ok y
    /\ length y = length five_samples.
Proof.
  assert (H : exists y,
             SoundMixer.__call__ ten_samples last_offset five_samples 30
             = Ok y).
  { eexists.
    change (SoundMixer.__call__ ten_samples last_offset five_samples 30)
      with (mix (map Fin [1; 2; 3; 4; 5]) (map Fin [4; 5; 6; 7; 8]) 30).
    assert (Hp : plain [1; 2; 3; 4; 5]) by plain_literal.
    assert (Hq : plain [4; 5; 6; 7; 8]) by plain_literal.
    assert (Zp : ~ silent [1; 2; 3; 4; 5]) by not_silent_literal.
    assert (Zq : ~ silent [4; 5; 6; 7; 8]) by not_silent_literal.
    apply mix_audible;
      [ discriminate | reflexivity
      | apply plain_audible; assumption
      | apply plain_audible; assumption
      | apply plain_sized; assumption
      | unfold level_ok; lra ]. }
  destruct H as [y Hy]. exists y. split; [exact Hy|].
  exact (sound_mixer_returns_input_length ten_samples last_offset
           five_samples y 30 Hy).
Defined.

(** X18: the crop never reaches the end of the secondary: when the
    secondary is longer than the input, the window passed to [mix] is
    followed by at least one sample, so the last sample of the
    secondary is never mixed in. *)
Theorem crop_leaves_last_sample_out (self : SoundMixer.t)
    (rs : np.RandomState) (x : signal) (snr : R) :
  (length x < length (SoundMixer.other self))%nat ->
  exists before window after,
    SoundMixer.other self = before ++ window ++ after
    /\ after <> []
    /\ length window = length x
    /\ SoundMixer.__call__ self rs x snr = mix x window snr.
Proof.
  intros Hlt.
  set (high := (length (SoundMixer.other self) - length x)%nat).
  assert (Hh : (0 < high)%nat) by (unfold high; lia).
  pose proof (np.draw_lt rs high Hh) as Hd.
  set (st := np.draw rs high) in *.
  exists (firstn st (SoundMixer.other self)),
         (np.slice (SoundMixer.other self) st (st + length x)),
         (skipn (st + length x - st) (skipn st (SoundMixer.other self))).
  split; [|split; [|split]].
  - apply slice_contiguous. unfold high in *. lia.
  - intros E. apply (f_equal (@length f64)) in E.
    rewrite !length_skipn in E. simpl in E. unfold high in *. lia.
  - apply slice_length. unfold high in *. lia.
  - unfold SoundMixer.__call__.
    destruct (Nat.eqb_spec (length (SoundMixer.other self)) (length x));
      [lia|].
    destruct (Nat.ltb_spec (length (SoundMixer.other self)) (length x));
      [lia|].
    destruct (Nat.ltb_spec (length x) (length (SoundMixer.other self)));
      [|lia].
    fold high. unfold np.random_randint.
    destruct (Nat.eqb_spec high 0); [lia|]. reflexivity.
Qed.

Lemma crop_leaves_last_sample_out_witness :
  (length five_samples < length (SoundMixer.other ten_samples))%nat
  /\ exists before window after,
       SoundMixer.other ten_samples = before ++ window ++ after
       /\ after <> []
       /\ length window = length five_samples
       /\ SoundMixer.__call__ ten_samples last_offset five_samples 30
          = mix five_samples window 30.
Proof.
  assert (H : (length five_samples
               < length (SoundMixer.other ten_samples))%nat)
    by (simpl; lia).
  split; [exact H|].
  exact (crop_leaves_last_sample_out ten_samples last_offset five_samples
           30 H).
Defined.

(** X19: every offset below [len(other) - len(x)] can be drawn: for each
    such [k] there is a random source with which [SoundMixer.__call__]
    mixes the input with [other[k : k + len(x)]]. *)
Theorem crop_offset_attainable (self : SoundMixer.t) (x : signal)
    (snr : R) (k : nat) :
  (k < length (SoundMixer.other self) - length x)%nat ->
  SoundMixer.__call__ self (fixed_offset k) x snr
  = mix x (np.slice (SoundMixer.other self) k (k + length x)) snr.
Proof.
  intros Hk. unfold SoundMixer.__call__.
  destruct (Nat.eqb_spec (length (SoundMixer.other self)) (length x));
    [lia|].
  destruct (Nat.ltb_spec (length (SoundMixer.other self)) (length x));
    [lia|].
  destruct (Nat.ltb_spec (length x) (length (SoundMixer.other self)));
    [|lia].
  unfold np.random_randint.
  destruct (Nat.eqb_spec (length (SoundMixer.other self) - length x) 0);
    [lia|].
  cbn [bind fixed_offset np.draw].
  rewrite Nat.min_l by lia. reflexivity.
Qed.

Lemma crop_offset_attainable_witness :
  (2 < length (SoundMixer.other ten_samples) - length five_samples)%nat
  /\ SoundMixer.__call__ ten_samples (fixed_offset 2) five_samples 30
     = mix five_samples
           (np.slice (SoundMixer.other ten_samples) 2
                     (2 + length five_samples)) 30.
Proof.
  assert (H : (2 < length (SoundMixer.other ten_samples)
                   - length five_samples)%nat) by (simpl; lia).
  split; [exact H|].
  exact (crop_offset_attainable ten_samples five_samples 30 2 H).
Defined.


(** ** Further properties of transform.py: [MP3Compressor] *)

(** Run a call up to its [try] statement: the bitrate is valid, both
    temporary files are created and the dump is written. *)
Ltac run_to_try Hk Hw Hm Hx He :=
  unfold MP3Compressor.__call__;
  rewrite (proj2 (bitrate_check _) Hk); cbn [negb];
  unfold io_bind at 1 2 3, tempfile.mkstemp, write_wav;
  rewrite Hw; cbn [live next_id]; rewrite Hm, Hx, He;
  cbn [negb io_ret live next_id];
  unfold io_bind at 1, try_except_finally;
  unfold io_bind at 1, check_call.

(** X20: when everything works (both temporary files are created, the
    dump is written, ffmpeg exits with status 0 and the decoder
    returns), the call returns the decoded signal and no temporary file
    of its own is left. *)
Theorem compress_returns_decoded_signal (E : env) (sr : Z) (x y : signal)
    (kbps : Z) (s : fs) :
  fresh_names s ->
  In kbps MP3Compressor.bitrates ->
  mkstemp_error E ".wav" = None ->
  mkstemp_error E ".mp3" = None ->
  forallb isfinite x = true ->
  write_error E = None ->
  ffmpeg E = Exited 0 ->
  decoded E = Ok y ->
  MP3Compressor.__call__ E sr x kbps s
  = (Ok y, {| live := live s; next_id := S (S (next_id s)) |}).
Proof.
  intros Hf Hk Hw Hm Hx He Hp Hd.
  run_to_try Hk Hw Hm Hx He.
  rewrite Hp. unfold io_ret at 1, load. rewrite Hd.
  rewrite (finalizer_releases (next_id s) (S (S (next_id s))) (live s) Hf).
  reflexivity.
Qed.

Lemma compress_returns_decoded_signal_witness :
  fresh_names empty_fs
  /\ In 128%Z MP3Compressor.bitrates
  /\ MP3Compressor.__call__ (nominal [Fin 1; Fin 2]) 22050 [Fin 3; Fin 4]
       128 empty_fs
     = (Ok [Fin 1; Fin 2], {| live := []; next_id := 2 |}).
Proof.
  assert (H1 : fresh_names empty_fs) by constructor.
  assert (H2 : In 128%Z MP3Compressor.bitrates)
    by (apply bitrate_check; reflexivity).
  split; [exact H1 | split; [exact H2|]].
  exact (compress_returns_decoded_signal (nominal [Fin 1; Fin 2]) 22050
           [Fin 3; Fin 4] [Fin 1; Fin 2] 128 empty_fs
           H1 H2 eq_refl eq_refl eq_refl eq_refl eq_refl eq_refl).
Defined.

(** X21: when ffmpeg runs but exits with a non-zero status, the caller
    gets [subprocess.CalledProcessError] with that status, unchanged
    (it is not an [OSError], so the [except] clause lets it pass), and
    both temporary files are removed. *)
Theorem encoder_failure_propagates (E : env) (sr : Z) (x : signal)
    (kbps rc : Z) (s : fs) :
  fresh_names s ->
  In kbps MP3Compressor.bitrates ->
  mkstemp_error E ".wav" = None ->
  mkstemp_error E ".mp3" = None ->
  forallb isfinite x = true ->
  write_error E = None ->
  ffmpeg E = Exited rc ->
  rc <> 0%Z ->
  MP3Compressor.__call__ E sr x kbps s
  = (Raise (CalledProcessError rc),
     {| live := live s; next_id := S (S (next_id s)) |}).
Proof.
  intros Hf Hk Hw Hm Hx He Hp Hrc.
  run_to_try Hk Hw Hm Hx He.
  rewrite Hp.
  destruct rc as [|rc|rc]; [contradiction| |];
    unfold io_raise at 1; cbn [is_OSError];
    rewrite (finalizer_releases (next_id s) (S (S (next_id s))) (live s) Hf);
    reflexivity.
Qed.

Lemma encoder_failure_propagates_witness :
  fresh_names empty_fs
  /\ In 64%Z MP3Compressor.bitrates
  /\ 1%Z <> 0%Z
  /\ MP3Compressor.__call__
       {| mkstemp_error := fun _ => None; write_error := None;
          ffmpeg := Exited 1; decoded := Ok [] |}
       22050 [Fin 3; Fin 4] 64 empty_fs
     = (Raise (CalledProcessError 1), {| live := []; next_id := 2 |}).
Proof.
  assert (H1 : fresh_names empty_fs) by constructor.
  assert (H2 : In 64%Z MP3Compressor.bitrates)
    by (apply bitrate_check; reflexivity).
  assert (H3 : 1%Z <> 0%Z) by discriminate.
  split; [exact H1 | split; [exact H2 | split; [exact H3|]]].
  exact (encoder_failure_propagates
           {| mkstemp_error := fun _ => None; write_error := None;
              ffmpeg := Exited 1; decoded := Ok [] |}
           22050 [Fin 3; Fin 4] 64 1 empty_fs
           H1 H2 eq_refl eq_refl eq_refl eq_refl eq_refl H3).
Defined.

(** X22: the [try] statement also covers the decoder.  When ffmpeg
    succeeds and [librosa.load] raises, an [OSError] is caught by the
    same [except] clause and reaches the caller as [NameError]; any
    other error reaches the caller unchanged.  Both temporary files are
    removed either way. *)
Theorem decoder_failure_handled (E : env) (sr : Z) (x : signal)
    (kbps : Z) (s : fs) (e : exn) :
  fresh_names s ->
  In kbps MP3Compressor.bitrates ->
  mkstemp_error E ".wav" = None ->
  mkstemp_error E ".mp3" = None ->
  forallb isfinite x = true ->
  write_error E = None ->
  ffmpeg E = Exited 0 ->
  decoded E = Raise e ->
  MP3Compressor.__call__ E sr x kbps s
  = (Raise (if is_OSError e then NameError "RunTimeError" else e),
     {| live := live s; next_id := S (S (next_id s)) |}).
Proof.
  intros Hf Hk Hw Hm Hx He Hp Hd.
  run_to_try Hk Hw Hm Hx He.
  rewrite Hp. unfold io_ret at 1, load. rewrite Hd.
  destruct (is_OSError e).
  - change (@raise_named signal "RunTimeError"
              "Failed to execute ffmpeg.Please verify that ffmpeg is installed.")
      with (@io_raise signal (NameError "RunTimeError")).
    unfold io_raise at 1.
    rewrite (finalizer_releases (next_id s) (S (S (next_id s))) (live s) Hf).
    reflexivity.
  - rewrite (finalizer_releases (next_id s) (S (S (next_id s))) (live s) Hf).
    reflexivity.
Qed.

Lemma decoder_failure_handled_witness :
  fresh_names empty_fs
  /\ In 320%Z MP3Compressor.bitrates
  /\ MP3Compressor.__call__
       {| mkstemp_error := fun _ => None; write_error := None;
          ffmpeg := Exited 0;
          decoded := Raise (FileNotFoundError "out.mp3") |}
       22050 [Fin 3; Fin 4] 320 empty_fs
     = (Raise (if is_OSError (FileNotFoundError "out.mp3")
               then NameError "RunTimeError"
               else FileNotFoundError "out.mp3"),
        {| live := []; next_id := 2 |}).
Proof.
  assert (H1 : fresh_names empty_fs) by constructor.
  assert (H2 : In 320%Z MP3Compressor.bitrates)
    by (apply bitrate_check; reflexivity).
  split; [exact H1 | split; [exact H2|]].
  exact (decoder_failure_handled
           {| mkstemp_error := fun _ => None; write_error := None;
              ffmpeg := Exited 0;
              decoded := Raise (FileNotFoundError "out.mp3") |}
           22050 [Fin 3; Fin 4] 320 empty_fs (FileNotFoundError "out.mp3")
           H1 H2 eq_refl eq_refl eq_refl eq_refl eq_refl eq_refl).
Defined.

(** X23: when the dump cannot be written (an I/O error of
    [write_wav]), that error reaches the caller and both temporary
    files stay behind: the dump is outside the [try] statement. *)
Theorem dump_failure_leaves_both_files (E : env) (sr : Z) (x : signal)
    (kbps : Z) (s : fs) (e : exn) :
  In kbps MP3Compressor.bitrates ->
  mkstemp_error E ".wav" = None ->
  mkstemp_error E ".mp3" = None ->
  forallb isfinite x = true ->
  write_error E = Some e ->
  MP3Compressor.__call__ E sr x kbps s
  = (Raise e,
     {| live := {| tmp_id := S (next_id s); tmp_suffix := ".mp3" |}
                :: {| tmp_id := next_id s; tmp_suffix := ".wav" |}
                :: live s;
        next_id := S (S (next_id s)) |}).
Proof.
  intros Hk Hw Hm Hx He.
  unfold MP3Compressor.__call__.
  rewrite (proj2 (bitrate_check _) Hk). cbn [negb].
  unfold io_bind at 1 2 3, tempfile.mkstemp, write_wav.
  rewrite Hw. cbn [live next_id]. rewrite Hm, Hx, He. reflexivity.
Qed.

Lemma dump_failure_leaves_both_files_witness :
  In 128%Z MP3Compressor.bitrates
  /\ MP3Compressor.__call__
       {| mkstemp_error := fun _ => None;
          write_error := Some (OSError "No space left on device");
          ffmpeg := Exited 0; decoded := Ok [] |}
       22050 [Fin 3; Fin 4] 128 empty_fs
     = (Raise (OSError "No space left on device"),
        {| live := [ {| tmp_id := 1; tmp_suffix := ".mp3" |};
                     {| tmp_id := 0; tmp_suffix := ".wav" |} ];
           next_id := 2 |}).
Proof.
  assert (H : In 128%Z MP3Compressor.bitrates)
    by (apply bitrate_check; reflexivity).
  split; [exact H|].
  exact (dump_failure_leaves_both_files
           {| mkstemp_error := fun _ => None;
              write_error := Some (OSError "No space left on device");
              ffmpeg := Exited 0; decoded := Ok [] |}
           22050 [Fin 3; Fin 4] 128 empty_fs
           (OSError "No space left on device")
           H eq_refl eq_refl eq_refl eq_refl).
Defined.

(** X24: when the second temporary file cannot be created, the error
    of [mkstemp] reaches the caller and the first temporary file, the
    [.wav] one, stays behind. *)
Theorem second_mkstemp_failure_leaves_first_file (E : env) (sr : Z)
    (x : signal) (kbps : Z) (s : fs) (e : exn) :
  In kbps MP3Compressor.bitrates ->
  mkstemp_error E ".wav" = None ->
  mkstemp_error E ".mp3" = Some e ->
  MP3Compressor.__call__ E sr x kbps s
  = (Raise e,
     {| live := {| tmp_id := next_id s; tmp_suffix := ".wav" |} :: live s;
        next_id := S (next_id s) |}).
Proof.
  intros Hk Hw Hm.
  unfold MP3Compressor.__call__.
  rewrite (proj2 (bitrate_check _) Hk). cbn [negb].
  unfold io_bind at 1 2, tempfile.mkstemp.
  rewrite Hw. cbn [live next_id]. rewrite Hm. reflexivity.
Qed.

Lemma second_mkstemp_failure_leaves_first_file_witness :
  In 128%Z MP3Compressor.bitrates
  /\ MP3Compressor.__call__
       {| mkstemp_error := fun suffix =>
            if String.eqb suffix ".mp3"
            then Some (OSError "Too many open files") else None;
          write_error := None; ffmpeg := Exited 0; decoded := Ok [] |}
       22050 [Fin 3; Fin 4] 128 empty_fs
     = (Raise (OSError "Too many open files"),
        {| live := [ {| tmp_id := 0; tmp_suffix := ".wav" |} ];
           next_id := 1 |}).
Proof.
  assert (H : In 128%Z MP3Compressor.bitrates)
    by (apply bitrate_check; reflexivity).
  split; [exact H|].
  exact (second_mkstemp_failure_leaves_first_file
           {| mkstemp_error := fun suffix =>
                if String.eqb suffix ".mp3"
                then Some (OSError "Too many open files") else None;
              write_error := None; ffmpeg := Exited 0; decoded := Ok [] |}
           22050 [Fin 3; Fin 4] 128 empty_fs (OSError "Too many open files")
           H eq_refl eq_refl).
Defined.

Lemma encode_step_releases_witness :
  fresh_names empty_fs
  /\ In 128%Z MP3Compressor.bitrates
  /\ live (snd (MP3Compressor.__call__ (no_ffmpeg []) 22050 [Fin 3; Fin 4]
                  128 empty_fs))
     = live empty_fs.
Proof.
  assert (H1 : fresh_names empty_fs) by constructor.
  assert (H2 : In 128%Z MP3Compressor.bitrates)
    by (apply bitrate_check; reflexivity).
  split; [exact H1 | split; [exact H2|]].
  exact (encode_step_releases (no_ffmpeg []) 22050 [Fin 3; Fin 4] 128
           empty_fs H1 H2 eq_refl eq_refl eq_refl eq_refl).
Defined.

Lemma encoder_not_started_witness :
  fresh_names empty_fs
  /\ In 128%Z MP3Compressor.bitrates
  /\ is_OSError (OSError "Permission denied") = true
  /\ MP3Compressor.__call__
       {| mkstemp_error := fun _ => None; write_error := None;
          ffmpeg := NotStarted (OSError "Permission denied");
          decoded := Ok [] |}
       22050 [Fin 3; Fin 4] 128 empty_fs
     = (Raise (NameError "RunTimeError"),
        {| live := live empty_fs; next_id := S (S (next_id empty_fs)) |}).
Proof.
  assert (H1 : fresh_names empty_fs) by constructor.
  assert (H2 : In 128%Z MP3Compressor.bitrates)
    by (apply bitrate_check; reflexivity).
  split; [exact H1 | split; [exact H2 | split; [reflexivity|]]].
  exact (encoder_not_started
           {| mkstemp_error := fun _ => None; write_error := None;
              ffmpeg := NotStarted (OSError "Permission denied");
              decoded := Ok [] |}
           22050 [Fin 3; Fin 4] 128 empty_fs (OSError "Permission denied")
           H1 H2 eq_refl eq_refl eq_refl eq_refl eq_refl eq_refl).
Defined.
